(** * The OAuth2 authentication manager of google-workspace-mcp

    A shallow embedding of [src/auth/AuthManager.ts] (and of the part of
    [src/utils/config.ts] it reads), followed by the properties of the
    credential life cycle: cache, persisted record, refresh through the
    cloud function, and the loopback callback listener.

    The class is asynchronous and effectful.  One call is modelled as a
    function of the [World] (the manager's fields, the OAuth2 client objects
    it has allocated, the persisted credential record) in a state monad whose
    state survives a thrown error, as a JavaScript exception leaves earlier
    mutations in place.  Everything outside the class (the clock, the refresh
    endpoint, the file system, the browser, Node's URL, Buffer and JSON, and
    the requests that reach the listener) is an [Env] of answers that depend
    on the history of effects so far.  Concurrent calls on one manager are
    outside the model; logging through [logToFile] is left out. *)

From Stdlib Require Import ZArith String Ascii List Bool Lia.
From stdpp Require Import base option list gmap strings pretty.
Import ListNotations.
Set Warnings "-register-all".
Local Open Scope string_scope.
Local Open Scope Z_scope.

(** ** JavaScript values the manager handles *)

(** A JavaScript number as the manager meets it: an integer (epoch
    milliseconds, a port) or the [NaN] that [parseInt] returns. *)
Inductive number :=
| NaN
| Num (z : Z).

(** [!!n] *)
Definition truthy_number (n : number) : bool :=
  match n with
  | NaN => false
  | Num z => negb (z =? 0)
  end.

(** [a < b]; any comparison with [NaN] is false. *)
Definition number_lt (a b : number) : bool :=
  match a, b with
  | Num x, Num y => x <? y
  | _, _ => false
  end.

(** [!!s] for [s : string | null | undefined]. *)
Definition truthy_string (s : option string) : bool :=
  match s with
  | Some EmptyString => false
  | Some _ => true
  | None => false
  end.

(** [a || b] on optional strings. *)
Definition or_string (a b : option string) : option string :=
  if truthy_string a then a else b.

(** [s.split(sep)] for a separator of one character. *)
Fixpoint split (sep : ascii) (s : string) : list string :=
  match s with
  | EmptyString => [EmptyString]
  | String c s' =>
      if Ascii.eqb c sep then EmptyString :: split sep s'
      else match split sep s' with
           | [] => [String c EmptyString]
           | h :: t => String c h :: t
           end
  end.

Definition is_space (c : ascii) : bool :=
  let n := nat_of_ascii c in
  (Nat.eqb n 32 || (Nat.leb 9 n && Nat.leb n 13))%bool.

Definition digit_of (c : ascii) : option Z :=
  let n := Z.of_nat (nat_of_ascii c) in
  if (48 <=? n) && (n <=? 57) then Some (n - 48) else None.

Fixpoint skip_space (s : string) : string :=
  match s with
  | String c s' => if is_space c then skip_space s' else s
  | EmptyString => s
  end.

Fixpoint read_digits (acc : option Z) (s : string) : option Z :=
  match s with
  | EmptyString => acc
  | String c s' =>
      match digit_of c with
      | Some d => read_digits (Some (10 * default 0 acc + d)) s'
      | None => acc
      end
  end.

(** [parseInt(s, 10)]: leading white space, an optional sign, then the
    longest run of decimal digits; [NaN] when there is no digit.  (White
    space is the ASCII one; results beyond 2^53 are not rounded.) *)
Definition parseInt10 (s : string) : number :=
  let s := skip_space s in
  let '(neg, s) :=
    match s with
    | String "-" r => (true, r)
    | String "+" r => (false, r)
    | _ => (false, s)
    end in
  match read_digits None s with
  | None => NaN
  | Some z => Num (if neg then - z else z)
  end.

(** A parsed JSON value; an object keeps its members in an association list
    read by first match. *)
Inductive Json :=
| JNull
| JBool (b : bool)
| JNum (z : Z)
| JStr (s : string)
| JArr (items : list Json)
| JObj (members : list (string * Json)).

Fixpoint assoc {A} (k : string) (l : list (string * A)) : option A :=
  match l with
  | [] => None
  | (k', v) :: l' => if String.eqb k k' then Some v else assoc k l'
  end.

(** A thrown [Error] with its message. *)
Inductive Error :=
| JsError (message : string).

Definition message (e : Error) : string :=
  match e with JsError m => m end.

(** [Auth.Credentials]: the fields the manager reads or writes.  [None] is
    [undefined] or [null]. *)
Record Credentials := mkCredentials {
  access_token : option string;
  refresh_token : option string;
  scope : option string;
  token_type : option string;
  expiry_date : option number
}.

(** The [{}] a new OAuth2 client starts with. *)
Definition no_credentials : Credentials :=
  mkCredentials None None None None None.

(** ** The world of one manager *)

(** OAuth2 client objects are shared and mutated ([setCredentials]): they
    live in a heap and are named by their allocation index. *)
Definition ClientRef := nat.

Inductive Event :=
| EvStoreLoad
| EvStoreSave (c : Credentials)
| EvStoreClear
| EvFetch (url : string) (refresh_token : string)
| EvListen (host : string) (port : number)
| EvWriteFile (path contents : string)
| EvUnlink (path : string)
| EvStderr (text : string)
| EvOpen (url : string)
| EvStatus (msg : string)
| EvAwaitLogin.

Record World := mkWorld {
  this_client : option ClientRef;       (* this.client *)
  this_scopes : list string;            (* this.scopes *)
  this_onStatusUpdate : bool;           (* is a callback registered *)
  heap : list Credentials;              (* credentials of each OAuth2 client *)
  store : option Credentials;           (* the persisted record *)
  auth_url_file : option string;        (* contents of /tmp/auth_url.txt *)
  trace : list Event                    (* effects so far, oldest first *)
}.

Definition set_this_client (c : option ClientRef) (w : World) : World :=
  mkWorld c (this_scopes w) (this_onStatusUpdate w) (heap w) (store w)
          (auth_url_file w) (trace w).

Definition set_onStatusUpdate (b : bool) (w : World) : World :=
  mkWorld (this_client w) (this_scopes w) b (heap w) (store w)
          (auth_url_file w) (trace w).

Definition set_heap (h : list Credentials) (w : World) : World :=
  mkWorld (this_client w) (this_scopes w) (this_onStatusUpdate w) h (store w)
          (auth_url_file w) (trace w).

Definition set_store (s : option Credentials) (w : World) : World :=
  mkWorld (this_client w) (this_scopes w) (this_onStatusUpdate w) (heap w) s
          (auth_url_file w) (trace w).

Definition set_auth_url_file (f : option string) (w : World) : World :=
  mkWorld (this_client w) (this_scopes w) (this_onStatusUpdate w) (heap w)
          (store w) f (trace w).

Definition log (e : Event) (w : World) : World :=
  mkWorld (this_client w) (this_scopes w) (this_onStatusUpdate w) (heap w)
          (store w) (auth_url_file w) (trace w ++ [e]).

(** [client.credentials] *)
Definition credentials_of (w : World) (r : ClientRef) : Credentials :=
  default no_credentials (heap w !! r).

(** ** The environment *)

Inductive FetchResult :=
| FetchRejects (e : Error)
| FetchResponse (status : Z) (text : string) (json : Error + Credentials).

(** [response.ok] *)
Definition response_ok (status : Z) : bool :=
  (200 <=? status) && (status <=? 299).

(** What reaches the callback server: a request with its [req.url], or an
    ['error'] event of the server itself. *)
Inductive Inbound :=
| InRequest (url : option string)
| InServerError (err : string).

(** The object that is serialised into the [state] parameter. *)
Record StatePayload := mkStatePayload {
  sp_uri : option string;
  sp_manual : bool;
  sp_csrf : string
}.

Record Env := mkEnv {
  (* process.env *)
  WORKSPACE_CLIENT_ID : option string;
  WORKSPACE_CLOUD_FUNCTION_URL : option string;
  OAUTH_CALLBACK_PORT : option string;
  OAUTH_CALLBACK_HOST : option string;
  (* Date.now() *)
  Date_now : list Event -> Z;
  (* fetch(url, {method: 'POST', body: {refresh_token}}) *)
  fetch : list Event -> string -> string -> FetchResult;
  (* I/O errors of the credential store and of the file system *)
  save_error : list Event -> option Error;
  writeFileSync_error : list Event -> option Error;
  unlinkSync_error : list Event -> option Error;
  (* the browser launcher *)
  shouldLaunchBrowser : bool;
  open_error : list Event -> option Error;
  (* the bind/listen/close probe for a free port *)
  probe_port : list Event -> Error + Z;
  (* crypto.randomBytes(32).toString('hex') *)
  randomBytes_hex : list Event -> string;
  (* Buffer.from(JSON.stringify(payload)).toString('base64') *)
  encode_state : StatePayload -> string;
  (* client.generateAuthUrl, from redirect_uri, scope and state *)
  generateAuthUrl : string -> list string -> string -> string;
  (* new url.URL(u, base).searchParams, in order; the constructor may throw *)
  searchParams : string -> string -> Error + list (string * string);
  (* Buffer.from(s, 'base64').toString() *)
  base64_toString : string -> string;
  (* JSON.parse *)
  JSON_parse : string -> Error + Json;
  (* what reaches the callback server before the 5 minute timer fires *)
  inbound : list Event -> list Inbound
}.

(** ** The monad of an asynchronous method *)

(** A call returns, throws, or (in the model only) runs out of the fuel that
    bounds the mutual recursion of [getAuthenticatedClient] and
    [refreshToken]. *)
Inductive Result (A : Type) :=
| Ok (a : A)
| Throw (e : Error)
| OutOfFuel.
Arguments Ok {A} a.
Arguments Throw {A} e.
Arguments OutOfFuel {A}.

Definition M (A : Type) : Type := World -> Result A * World.

Definition ret {A} (a : A) : M A := fun w => (Ok a, w).

Definition throw {A} (e : Error) : M A := fun w => (Throw e, w).

Definition bind {A B} (m : M A) (k : A -> M B) : M B :=
  fun w =>
    match m w with
    | (Ok a, w') => k a w'
    | (Throw e, w') => (Throw e, w')
    | (OutOfFuel, w') => (OutOfFuel, w')
    end.

(** [try { m } catch (e) { h e }] *)
Definition try_catch {A} (m : M A) (h : Error -> M A) : M A :=
  fun w =>
    match m w with
    | (Ok a, w') => (Ok a, w')
    | (Throw e, w') => h e w'
    | (OutOfFuel, w') => (OutOfFuel, w')
    end.

Definition gets {A} (f : World -> A) : M A := fun w => (Ok (f w), w).

Definition modify (f : World -> World) : M unit := fun w => (Ok tt, f w).

Declare Scope js_scope.
Delimit Scope js_scope with js.
Notation "x <- m ;; k" := (bind m (fun x => k))
  (at level 20, m at level 99, k at level 200, only parsing) : js_scope.
Notation "' pat <- m ;; k" := (bind m (fun x => match x with pat => k end))
  (at level 20, pat pattern, m at level 99, k at level 200, only parsing)
  : js_scope.
Notation "'do' m ;; k" := (bind m (fun _ => k))
  (at level 20, m at level 99, k at level 200, only parsing) : js_scope.
Local Open Scope js_scope.

(** ** Constants and configuration *)

Definition TOKEN_EXPIRY_BUFFER_MS : Z := 5 * 60 * 1000.

Definition AUTH_URL_FILE : string := "/tmp/auth_url.txt".

Definition newline : string := String (ascii_of_nat 10) EmptyString.

Definition dquote : string := String (ascii_of_nat 34) EmptyString.

Record WorkspaceConfig := mkWorkspaceConfig {
  clientId : string;
  cloudFunctionUrl : string
}.

Definition DEFAULT_CONFIG : WorkspaceConfig :=
  mkWorkspaceConfig
    "338689075775-o75k922vn5fdl18qergr96rp8g63e4d7.apps.googleusercontent.com"
    "https://google-workspace-extension.geminicli.com".

(** [process.env[name] || fallback] *)
Definition env_or (v : option string) (fallback : string) : string :=
  match v with
  | Some (String c s) => String c s
  | _ => fallback
  end.

Definition loadConfig (E : Env) : WorkspaceConfig :=
  mkWorkspaceConfig
    (env_or (WORKSPACE_CLIENT_ID E) (clientId DEFAULT_CONFIG))
    (env_or (WORKSPACE_CLOUD_FUNCTION_URL E) (cloudFunctionUrl DEFAULT_CONFIG)).

(** [`${n}`] *)
Definition number_to_string (n : number) : string :=
  match n with
  | NaN => "NaN"
  | Num z => pretty z
  end.

(** ** The completion signal and the callback server *)

(** The state of [loginCompletePromise]. *)
Inductive Promise :=
| Pending
| Resolved
| Rejected (e : Error).

(** [resolve()] and [reject(e)] settle a pending promise and do nothing to
    a settled one. *)
Definition settle (outcome p : Promise) : Promise :=
  match p with
  | Pending => outcome
  | _ => p
  end.

(** The server that [authWithWeb] creates, with what its request handler
    closes over.  [handled] is a ghost counter of the runs of the handler. *)
Record Listener := mkListener {
  l_csrfToken : string;
  l_host : string;
  l_port : number;
  l_client : ClientRef;
  completion : Promise;
  closed : bool;
  replies : list string;
  handled : nat
}.

Definition with_completion (p : Promise) (l : Listener) : Listener :=
  mkListener (l_csrfToken l) (l_host l) (l_port l) (l_client l) p (closed l)
             (replies l) (handled l).

Definition resolve (l : Listener) : Listener :=
  with_completion (settle Resolved (completion l)) l.

Definition reject (e : Error) (l : Listener) : Listener :=
  with_completion (settle (Rejected e) (completion l)) l.

(** [res.end(body)] *)
Definition res_end (body : string) (l : Listener) : Listener :=
  mkListener (l_csrfToken l) (l_host l) (l_port l) (l_client l) (completion l)
             (closed l) (replies l ++ [body]) (handled l).

(** [server.close()] *)
Definition server_close (l : Listener) : Listener :=
  mkListener (l_csrfToken l) (l_host l) (l_port l) (l_client l) (completion l)
             true (replies l) (handled l).

Definition count_handled (l : Listener) : Listener :=
  mkListener (l_csrfToken l) (l_host l) (l_port l) (l_client l) (completion l)
             (closed l) (replies l) (S (handled l)).

Record OauthWebLogin := mkOauthWebLogin {
  authUrl : string;
  loginCompletePromise : Listener
}.

(** [v[k]] on a parsed JSON value: a [TypeError] on [null], the member of an
    object, [undefined] on anything else. *)
Definition js_prop (v : Json) (k : string) : Error + option Json :=
  match v with
  | JNull => inl (JsError "TypeError: Cannot read properties of null")
  | JObj members => inr (assoc k members)
  | _ => inr None
  end.

(** [v === s] for a string [s]. *)
Definition strict_eq_string (v : option Json) (s : string) : bool :=
  match v with
  | Some (JStr s') => String.eqb s' s
  | _ => false
  end.

(** ** The program *)

Section AuthManager.

Variable E : Env.

Definition CLIENT_ID : string := clientId (loadConfig E).

Definition CLOUD_FUNCTION_URL : string := cloudFunctionUrl (loadConfig E).

(** [new AuthManager(scopes)] *)
Definition new_AuthManager (scopes : list string) (persisted : option Credentials)
    : World :=
  mkWorld None scopes false [] persisted None [].

Definition setOnStatusUpdate : M unit := modify (set_onStatusUpdate true).

(** *** The credential store

    Modelled from the spec: [OAuthCredentialStorage] is not among the
    sources.  Its contract is [load() -> Credential | absent],
    [save(Credential) -> void, fails on I/O error] and
    [clear() -> void, idempotent]: one record, last writer wins. *)
Definition loadCredentials : M (option Credentials) :=
  fun w => (Ok (store w), log EvStoreLoad w).

Definition saveCredentials (c : Credentials) : M unit :=
  fun w =>
    match save_error E (trace w) with
    | Some e => (Throw e, w)
    | None => (Ok tt, log (EvStoreSave c) (set_store (Some c) w))
    end.

Definition clearCredentials : M unit :=
  fun w => (Ok tt, log EvStoreClear (set_store None w)).

(** *** OAuth2 client objects *)

(** [new google.auth.OAuth2(options)] *)
Definition new_OAuth2 : M ClientRef :=
  fun w => (Ok (length (heap w)), set_heap (heap w ++ [no_credentials]) w).

(** [client.setCredentials(c)] *)
Definition setCredentials (client : ClientRef) (c : Credentials) : M unit :=
  modify (fun w => set_heap (<[client := c]> (heap w)) w).

Definition get_credentials (client : ClientRef) : M Credentials :=
  gets (fun w => credentials_of w client).

(** The handler of the client's ['tokens'] event (lines 112-125).  The
    googleapis library raises the event when it refreshes on its own; no
    method of the manager does. *)
Definition on_tokens (tokens : Credentials) : M unit :=
  try_catch
    (current <- loadCredentials ;;
     let current := default no_credentials current in
     let merged :=
       mkCredentials (access_token tokens)
                     (or_string (refresh_token tokens) (refresh_token current))
                     (scope tokens) (token_type tokens) (expiry_date tokens) in
     saveCredentials merged)
    (fun _ => ret tt).

(** *** [isTokenExpiringSoon] *)
Definition isTokenExpiringSoon (credentials : Credentials) : M bool :=
  fun w =>
    (Ok match expiry_date credentials with
        | Some d =>
            truthy_number d
            && number_lt d (Num (Date_now E (trace w) + TOKEN_EXPIRY_BUFFER_MS))
        | None => false
        end, w).

(** [new Set(credentials.scope?.split(' ') ?? [])] *)
Definition savedScopes_of (credentials : Credentials) : gset string :=
  list_to_set match scope credentials with
              | Some s => split " " s
              | None => []
              end.

(** *** [loadCachedCredentials] *)
Definition loadCachedCredentials (client : ClientRef) : M bool :=
  credentials <- loadCredentials ;;
  match credentials with
  | Some credentials =>
      let savedScopes := savedScopes_of credentials in
      scopes <- gets this_scopes ;;
      let missingScopes := filter (fun scope => scope ∉ savedScopes) scopes in
      match missingScopes with
      | _ :: _ =>
          do clearCredentials ;;
          ret false
      | [] =>
          do setCredentials client credentials ;;
          ret true
      end
  | None => ret false
  end.

(** *** [refreshToken], from its [try] on (lines 213-246) *)
Definition call_refresh_endpoint (refresh_token : string)
    : M (Z * string * (Error + Credentials)) :=
  fun w =>
    let url := CLOUD_FUNCTION_URL +:+ "/refreshToken" in
    let w' := log (EvFetch url refresh_token) w in
    match fetch E (trace w) url refresh_token with
    | FetchRejects e => (Throw e, w')
    | FetchResponse status text json => (Ok (status, text, json), w')
    end.

Definition refreshToken_try : M unit :=
  try_catch
    (client <- gets this_client ;;
     match client with
     | None => throw (JsError "TypeError: Cannot read properties of null")
     | Some client =>
         currentCredentials <- get_credentials client ;;
         match refresh_token currentCredentials with
         | Some (String c s) =>
             '(status, text, json) <- call_refresh_endpoint (String c s) ;;
             if negb (response_ok status) then
               throw (JsError ("Token refresh failed: " +:+ pretty status
                               +:+ " " +:+ text))
             else
               match json with
               | inl e => throw e
               | inr newTokens =>
                   let mergedCredentials :=
                     mkCredentials (access_token newTokens)
                                   (refresh_token currentCredentials)
                                   (scope newTokens) (token_type newTokens)
                                   (expiry_date newTokens) in
                   do setCredentials client mergedCredentials ;;
                   do saveCredentials mergedCredentials ;;
                   ret tt
               end
         | _ => throw (JsError "No refresh token available")
         end
     end)
    (fun error => throw error).

(** *** [getAvailablePort] *)
Definition port_out_of_range (port : number) : bool :=
  match port with
  | NaN => true
  | Num p => (p <=? 0) || (65535 <? p)
  end.

Definition getAvailablePort : M number :=
  match OAUTH_CALLBACK_PORT E with
  | Some (String c s) =>
      let portStr := String c s in
      let port := parseInt10 portStr in
      if port_out_of_range port then
        throw (JsError ("Invalid value for OAUTH_CALLBACK_PORT: "
                        +:+ dquote +:+ portStr +:+ dquote))
      else ret port
  | _ =>
      fun w =>
        match probe_port E (trace w) with
        | inl e => (Throw e, w)
        | inr port => (Ok (Num port), w)
        end
  end.

(** *** The request handler of the callback server (lines 298-352) *)

Definition csrf_error : Error :=
  JsError "OAuth state mismatch. Possible CSRF attack.".

(** The check of the returned state (lines 309-316): the raw token, or
    base64 of a JSON value whose [csrf] is the token. *)
Definition csrfValid (csrfToken : string) (returnedState : option string)
    : bool :=
  let csrfValid := bool_decide (returnedState = Some csrfToken) in
  match returnedState with
  | Some (String c s) =>
      if csrfValid then csrfValid
      else
        match JSON_parse E (base64_toString E (String c s)) with
        | inr decoded =>
            match js_prop decoded "csrf" with
            | inr v => strict_eq_string v csrfToken
            | inl _ => csrfValid
            end
        | inl _ => csrfValid
        end
  | _ => csrfValid
  end.

(** The body of the handler's [try]: [inl e] when it throws [e]. *)
Definition handle_callback (l : Listener) (req_url : option string) (w : World)
    : Error + Listener * World :=
  let csrfToken := l_csrfToken l in
  match req_url with
  | Some (String c u) =>
      let req_url := String c u in
      if negb (String.prefix "/oauth2callback" req_url) then
        inr (reject (JsError ("OAuth callback not received. Unexpected request: "
                              +:+ req_url)) (res_end "" l), w)
      else
        match searchParams E req_url ("http://" +:+ l_host l +:+ ":"
                                      +:+ number_to_string (l_port l)) with
        | inl e => inl e
        | inr qs =>
            let returnedState := assoc "state" qs in
            let csrfValid := csrfValid csrfToken returnedState in
            if negb csrfValid then
              inr (reject csrf_error
                     (res_end "State mismatch. Possible CSRF attack." l), w)
            else
              match assoc "error" qs with
              | Some (String c' e') =>
                  inr (reject
                         (JsError ("Google OAuth error: " +:+ String c' e' +:+ ". "
                                   +:+ default "" (or_string
                                                     (assoc "error_description" qs)
                                                     (Some ""))))
                         (res_end "" l), w)
              | _ =>
                  let access_token := assoc "access_token" qs in
                  let refresh_token := assoc "refresh_token" qs in
                  let expiry_date_str := assoc "expiry_date" qs in
                  match access_token, expiry_date_str with
                  | Some (String _ _), Some (String c' s') =>
                      let tokens :=
                        mkCredentials
                          access_token
                          (or_string refresh_token None)
                          (or_string (assoc "scope" qs) None)
                          (or_string (assoc "token_type" qs) None)
                          (Some (parseInt10 (String c' s'))) in
                      inr (resolve
                             (res_end
                                "Authentication successful! Please return to the console."
                                l),
                           set_heap (<[l_client l := tokens]> (heap w)) w)
                  | _, _ =>
                      inr (reject
                             (JsError
                                "Authentication failed: Did not receive tokens from callback.")
                             l, w)
                  end
              end
        end
  | _ =>
      inr (reject (JsError ("OAuth callback not received. Unexpected request: "
                            +:+ default "undefined" req_url)) (res_end "" l), w)
  end.

(** The whole handler: [try { ... } catch (e) { reject(e) } finally
    { server.close() }]. *)
Definition requestListener (l : Listener) (req_url : option string) (w : World)
    : Listener * World :=
  let '(l', w') :=
    match handle_callback l req_url w with
    | inr r => r
    | inl e => (reject e l, w)
    end in
  (server_close (count_handled l'), w').

(** The server's ['error'] handler (line 355). *)
Definition on_server_error (err : string) (l : Listener) : Listener :=
  reject (JsError ("OAuth callback server error: " +:+ err)) l.

(** What the server does with one inbound event.  A server that has been
    closed accepts no connection, so no request reaches its handler (each
    request comes on a connection of its own; a connection kept alive from
    before the close is not modelled). *)
Definition deliver (s : Listener * World) (i : Inbound) : Listener * World :=
  match i with
  | InRequest req_url =>
      if closed (fst s) then s else requestListener (fst s) req_url (snd s)
  | InServerError err => (on_server_error err (fst s), snd s)
  end.

Definition deliver_all (events : list Inbound) (s : Listener * World)
    : Listener * World :=
  fold_left deliver events s.

(** *** [authWithWeb] *)
Definition authWithWeb (client : ClientRef) : M OauthWebLogin :=
  scopes <- gets this_scopes ;;
  port <- getAvailablePort ;;
  let host := env_or (OAUTH_CALLBACK_HOST E) "localhost" in
  let localRedirectUri :=
    "http://" +:+ host +:+ ":" +:+ number_to_string port +:+ "/oauth2callback" in
  let isGuiAvailable := shouldLaunchBrowser E in
  csrfToken <- gets (fun w => randomBytes_hex E (trace w)) ;;
  let statePayload :=
    mkStatePayload (if isGuiAvailable then Some localRedirectUri else None)
                   (negb isGuiAvailable) csrfToken in
  let state := encode_state E statePayload in
  let authUrl := generateAuthUrl E CLOUD_FUNCTION_URL scopes state in
  do modify (log (EvListen host port)) ;;
  ret (mkOauthWebLogin authUrl
         (mkListener csrfToken host port client Pending false [] 0)).

(** *** The helpers of the interactive flow *)

Definition writeFileSync (path contents : string) : M unit :=
  fun w =>
    match writeFileSync_error E (trace w) with
    | Some e => (Throw e, w)
    | None => (Ok tt, log (EvWriteFile path contents)
                          (set_auth_url_file (Some contents) w))
    end.

Definition unlinkSync (path : string) : M unit :=
  fun w =>
    match auth_url_file w, unlinkSync_error E (trace w) with
    | None, _ => (Throw (JsError "ENOENT: no such file or directory"), w)
    | Some _, Some e => (Throw e, w)
    | Some _, None => (Ok tt, log (EvUnlink path) (set_auth_url_file None w))
    end.

(** [open(url)], the wrapper of [utils/open-wrapper]. *)
Definition open (url : string) : M unit :=
  fun w =>
    if negb (shouldLaunchBrowser E) then
      (Throw (JsError "Browser launch not supported in this environment"), w)
    else
      match open_error E (trace w) with
      | Some e => (Throw (JsError ("Browser opening failed: " +:+ message e)), w)
      | None => (Ok tt, log (EvOpen url) w)
      end.

Definition timeout_error (webLogin : OauthWebLogin) : Error :=
  JsError ("Authentication timed out after 5 minutes. "
           +:+ "Open this URL in your browser: " +:+ authUrl webLogin).

(** [await Promise.race([webLogin.loginCompletePromise, timeoutPromise])]:
    the events that arrive before the timer fires are handled by the server;
    the race takes the completion signal if they settled it and the timeout
    otherwise. *)
Definition await_login (webLogin : OauthWebLogin) : M unit :=
  fun w =>
    let w := log EvAwaitLogin w in
    let '(l, w') :=
      deliver_all (inbound E (trace w)) (loginCompletePromise webLogin, w) in
    match completion l with
    | Resolved => (Ok tt, w')
    | Rejected e => (Throw e, w')
    | Pending => (Throw (timeout_error webLogin), w')
    end.

(** The interactive flow of [getAuthenticatedClient], up to the wait
    (lines 150-177). *)
Definition start_login (oAuth2Client : ClientRef) : M OauthWebLogin :=
  webLogin <- authWithWeb oAuth2Client ;;
  do try_catch (writeFileSync AUTH_URL_FILE (authUrl webLogin +:+ newline))
               (fun _ => ret tt) ;;
  do modify (log (EvStderr (authUrl webLogin))) ;;
  do try_catch (open (authUrl webLogin)) (fun _ => ret tt) ;;
  let msg :=
    "Waiting for authentication... Check your browser or open the URL above." in
  onStatusUpdate <- gets this_onStatusUpdate ;;
  do (if onStatusUpdate then modify (log (EvStatus msg)) else ret tt) ;;
  ret webLogin.

(** The wait and what follows it (lines 179-195). *)
Definition finish_login (oAuth2Client : ClientRef) (webLogin : OauthWebLogin)
    : M ClientRef :=
  do await_login webLogin ;;
  credentials <- get_credentials oAuth2Client ;;
  do saveCredentials credentials ;;
  do modify (set_this_client (Some oAuth2Client)) ;;
  ret oAuth2Client.

Definition interactive_flow (oAuth2Client : ClientRef) : M ClientRef :=
  webLogin <- start_login oAuth2Client ;;
  finish_login oAuth2Client webLogin.

(** *** [getAuthenticatedClient] and [refreshToken]

    The two methods call each other.  Each body is written over the method
    it calls, and [fuel] bounds the depth of the calls where the knot is
    tied. *)

(** [getAuthenticatedClient] before the interactive flow (lines 81-148):
    [inl client] is [return this.client]; [inr oAuth2Client] falls through to
    the interactive flow with the client object created at line 110. *)
Definition cached_or_stored (refreshToken : M unit)
    : M (ClientRef + ClientRef) :=
  client <- gets this_client ;;
  cached <-
    match client with
    | Some client =>
        credentials <- get_credentials client ;;
        if truthy_string (refresh_token credentials) then
          isExpired <- isTokenExpiringSoon credentials ;;
          do (if isExpired then
                try_catch refreshToken
                  (fun _ =>
                     do modify (set_this_client None) ;;
                     clearCredentials)
              else ret tt) ;;
          gets this_client
        else ret None
    | None => ret None
    end ;;
  match cached with
  | Some client => ret (inl client)
  | None =>
      oAuth2Client <- new_OAuth2 ;;
      loaded <- loadCachedCredentials oAuth2Client ;;
      stored <-
        (if loaded then
           do modify (set_this_client (Some oAuth2Client)) ;;
           credentials <- get_credentials oAuth2Client ;;
           isExpired <- isTokenExpiringSoon credentials ;;
           do (if isExpired then
                 try_catch refreshToken
                   (fun _ =>
                      do modify (set_this_client None) ;;
                      clearCredentials)
               else ret tt) ;;
           gets this_client
         else ret None) ;;
      match stored with
      | Some client => ret (inl client)
      | None => ret (inr oAuth2Client)
      end
  end.

Definition getAuthenticatedClient_body (refreshToken : M unit) : M ClientRef :=
  found <- cached_or_stored refreshToken ;;
  match found with
  | inl client => ret client
  | inr oAuth2Client => interactive_flow oAuth2Client
  end.

Definition refreshToken_body (getAuthenticatedClient : M ClientRef) : M unit :=
  client <- gets this_client ;;
  do match client with
     | None =>
         client <- getAuthenticatedClient ;;
         modify (set_this_client (Some client))
     | Some _ => ret tt
     end ;;
  refreshToken_try.

Fixpoint getAuthenticatedClient (fuel : nat) : M ClientRef :=
  match fuel with
  | O => fun w => (OutOfFuel, w)
  | S fuel => getAuthenticatedClient_body (refreshToken fuel)
  end
with refreshToken (fuel : nat) : M unit :=
  match fuel with
  | O => fun w => (OutOfFuel, w)
  | S fuel => refreshToken_body (getAuthenticatedClient fuel)
  end.

(** *** [clearAuth] *)
Definition clearAuth : M unit :=
  do modify (set_this_client None) ;;
  do clearCredentials ;;
  do try_catch (unlinkSync AUTH_URL_FILE) (fun _ => ret tt) ;;
  ret tt.

End AuthManager.

Arguments getAuthenticatedClient E fuel w : simpl nomatch.
Arguments refreshToken E fuel w : simpl nomatch.

(** ** The configuration log and the authentication command *)

(** [s.slice(n)] for [0 <= n]. *)
Fixpoint drop_string (n : nat) (s : string) : string :=
  match n, s with
  | O, _ => s
  | S n, String _ r => drop_string n r
  | S _, EmptyString => EmptyString
  end.

(** [s.slice(-2)] *)
Definition slice_last2 (s : string) : string :=
  drop_string (String.length s - 2) s.

(** The client id as [loadConfig] writes it to the log (config.ts, lines
    32-35). *)
Definition maskedClientId (config : WorkspaceConfig) : string :=
  if (2 <? String.length (clientId config))%nat then
    "..." +:+ slice_last2 (clientId config)
  else clientId config.

(** The scopes of the authentication command ([auth-flow], lines 10-22). *)
Definition SCOPES : list string :=
  [ "https://www.googleapis.com/auth/documents";
    "https://www.googleapis.com/auth/drive";
    "https://www.googleapis.com/auth/calendar";
    "https://www.googleapis.com/auth/chat.spaces";
    "https://www.googleapis.com/auth/chat.messages";
    "https://www.googleapis.com/auth/chat.memberships";
    "https://www.googleapis.com/auth/userinfo.profile";
    "https://www.googleapis.com/auth/gmail.modify";
    "https://www.googleapis.com/auth/directory.readonly";
    "https://www.googleapis.com/auth/presentations.readonly";
    "https://www.googleapis.com/auth/spreadsheets.readonly" ].

Section AuthFlow.

Variable E : Env.

(** [runAuthFlow] ([auth-flow], lines 30-57): a new manager on the
    persisted record, one call of [getAuthenticatedClient], and the exit
    code of the process.  Of the console output, the line that carries the
    error is kept. *)
Definition runAuthFlow (fuel : nat) (persisted : option Credentials)
    : Result Z * World :=
  let authManager := new_AuthManager SCOPES persisted in
  match getAuthenticatedClient E fuel authManager with
  | (Ok _, w) => (Ok 0, w)
  | (Throw error, w) =>
      (Ok 1, log (EvStderr ("Error: " +:+ message error +:+ newline)) w)
  | (OutOfFuel, w) => (OutOfFuel, w)
  end.

End AuthFlow.

(** ** The vocabulary of the properties *)

Section Vocabulary.

Variable E : Env.

(** [`${CLOUD_FUNCTION_URL}/refreshToken`] *)
Definition refresh_url : string := CLOUD_FUNCTION_URL E +:+ "/refreshToken".

(** [{...newTokens, refresh_token: currentCredentials.refresh_token}] *)
Definition merged_credentials (newTokens currentCredentials : Credentials)
    : Credentials :=
  mkCredentials (access_token newTokens) (refresh_token currentCredentials)
                (scope newTokens) (token_type newTokens)
                (expiry_date newTokens).

(** The in-memory credential and the persisted record are the same in two
    worlds. *)
Definition same_credentials (w w' : World) : Prop :=
  this_client w' = this_client w /\ heap w' = heap w /\ store w' = store w.

(** A computation that returns or throws in every world: it never runs out
    of fuel. *)
Definition total {A} (m : M A) : Prop := forall w, fst (m w) <> OutOfFuel.

(** The handler has run at most once, and the server is closed once it
    has run. *)
Definition single_shot (l : Listener) : Prop :=
  (handled l <= 1)%nat /\ (closed l = false -> handled l = 0%nat)
  /\ (handled l = 1%nat -> closed l = true).

(** The returned state as the specification reads it: the flow's token
    itself, or base64 of a JSON object whose [csrf] member is the token. *)
Definition state_carries_csrf (csrfToken : string) (state : option string)
    : Prop :=
  state = Some csrfToken
  \/ exists s members,
       state = Some s
       /\ JSON_parse E (base64_toString E s) = inr (JObj members)
       /\ assoc "csrf" members = Some (JStr csrfToken).

(** What the handler leaves of the listener when it rejects the state. *)
Definition csrf_rejected (l : Listener) : Listener :=
  server_close
    (count_handled
       (reject csrf_error (res_end "State mismatch. Possible CSRF attack." l))).

(** An event that writes or clears the persisted record. *)
Definition store_write (e : Event) : bool :=
  match e with
  | EvStoreSave _ | EvStoreClear => true
  | _ => false
  end.

(** A computation that leaves the in-memory credential and the persisted
    record alone, and logs no write of the store. *)
Definition quiet {A} (m : M A) : Prop :=
  forall w r w',
    m w = (r, w') ->
    same_credentials w w'
    /\ exists t, trace w' = (trace w ++ t)%list /\ existsb store_write t = false.

(** The completion signal when the timer of the flow fires. *)
Definition signal_at_timeout (webLogin : OauthWebLogin) (w : World) : Promise :=
  completion
    (fst (deliver_all E (inbound E (trace (log EvAwaitLogin w)))
            (loginCompletePromise webLogin, log EvAwaitLogin w))).

End Vocabulary.

(** ** More vocabulary: what a computation adds to the trace *)

Section TraceVocabulary.

Variable E : Env.

(** A request to the refresh endpoint. *)
Definition is_fetch (e : Event) : bool :=
  match e with
  | EvFetch _ _ => true
  | _ => false
  end.

(** A request among the events that reach the callback server. *)
Definition is_request (i : Inbound) : bool :=
  match i with
  | InRequest _ => true
  | InServerError _ => false
  end.

(** The number of events of a kind in a trace. *)
Definition count_events (P : Event -> bool) (t : list Event) : nat :=
  length (List.filter P t).

(** A computation that only appends to the trace, and no event of the
    kind [P]. *)
Definition silent {A} (P : Event -> bool) (m : M A) : Prop :=
  forall w r w',
    m w = (r, w') ->
    exists t, trace w' = (trace w ++ t)%list /\ existsb P t = false.

(** The credential the handler builds from the query of a callback
    (lines 334-340). *)
Definition callback_tokens (qs : list (string * string)) : Credentials :=
  mkCredentials (assoc "access_token" qs)
                (or_string (assoc "refresh_token" qs) None)
                (or_string (assoc "scope" qs) None)
                (or_string (assoc "token_type" qs) None)
                (option_map parseInt10 (assoc "expiry_date" qs)).

(** What the handler leaves of the listener when it accepts a callback. *)
Definition callback_accepted (l : Listener) : Listener :=
  server_close
    (count_handled
       (resolve
          (res_end "Authentication successful! Please return to the console."
                   l))).

(** The base URL against which the handler resolves [req.url]. *)
Definition listener_base (l : Listener) : string :=
  "http://" +:+ l_host l +:+ ":" +:+ number_to_string (l_port l).

(** No credential in memory that [getAuthenticatedClient] could return
    from the cache: no client, or a client without a refresh token. *)
Definition cache_unusable (w : World) : Prop :=
  match this_client w with
  | None => True
  | Some c => truthy_string (refresh_token (credentials_of w c)) = false
  end.

(** The expiry check of [isTokenExpiringSoon] in plain terms: an expiry
    that is a number other than zero and less than five minutes ahead. *)
Definition expires_within_buffer (now : Z) (c : Credentials) : Prop :=
  exists e, expiry_date c = Some (Num e) /\ e <> 0 /\ e < now + 5 * 60 * 1000.

(** No character of [s] is a space. *)
Fixpoint no_space (s : string) : bool :=
  match s with
  | EmptyString => true
  | String c r => negb (Ascii.eqb c " ") && no_space r
  end.

(** Two worlds that differ at most in the credentials of one client
    object. *)
Definition touches_only (client : ClientRef) (w w' : World) : Prop :=
  this_client w' = this_client w
  /\ store w' = store w
  /\ auth_url_file w' = auth_url_file w
  /\ trace w' = trace w
  /\ length (heap w') = length (heap w)
  /\ forall r, r <> client -> heap w' !! r = heap w !! r.

Definition missing_tokens_error : Error :=
  JsError "Authentication failed: Did not receive tokens from callback.".

End TraceVocabulary.

(** ** Scenarios

    Concrete environments on which the model runs.  The library functions
    are stand-ins that answer the inputs the scenarios use. *)
Module Scenario.

(** [kv] cut at its first [sep]. *)
Fixpoint cut (sep : ascii) (kv : string) : string * string :=
  match kv with
  | EmptyString => (EmptyString, EmptyString)
  | String c r =>
      if Ascii.eqb c sep then (EmptyString, r)
      else let '(k, v) := cut sep r in (String c k, v)
  end.

(** The query of a URL, without percent-decoding. *)
Definition plain_query (u : string) : list (string * string) :=
  match snd (cut "?" u) with
  | EmptyString => []
  | q => map (cut "=") (split "&" q)
  end.

(** The state [{csrf: 'c0ffee'}] in base64, and the only text the
    stand-in for [JSON.parse] accepts. *)
Definition wrapped_csrf : string := "eyJjc3JmIjoiYzBmZmVlIn0=".

Definition table_JSON_parse (s : string) : Error + Json :=
  if String.eqb s wrapped_csrf then inr (JObj [("csrf", JStr "c0ffee")])
  else inl (JsError "SyntaxError: Unexpected token").

(** An environment with a fixed clock, one answer of the refresh endpoint,
    and the events that reach the callback server before the timeout. *)
Definition env (now : Z) (answer : FetchResult) (events : list Inbound) : Env :=
  mkEnv None None None None
        (fun _ => now)
        (fun _ _ _ => answer)
        (fun _ => None) (fun _ => None) (fun _ => None)
        false (fun _ => None)
        (fun _ => inr 45678)
        (fun _ => "c0ffee")
        (fun payload => "state-" +:+ sp_csrf payload)
        (fun redirect_uri _ state => redirect_uri +:+ "?state=" +:+ state)
        (fun u _ => inr (plain_query u))
        (fun s => s)
        table_JSON_parse
        (fun _ => events).

Definition now : Z := 1700000000000.

(** A credential of the scopes [read] that expires at [expiry]. *)
Definition credential (token : string) (refresh : option string)
    (expiry : option number) : Credentials :=
  mkCredentials (Some token) refresh (Some "read") (Some "Bearer") expiry.

(** A manager that requests [scopes], holds [cached] in memory (when given)
    and has [persisted] in the store. *)
Definition manager (scopes : list string) (cached persisted : option Credentials)
    : World :=
  match cached with
  | Some c => mkWorld (Some 0%nat) scopes false [c] persisted None []
  | None => new_AuthManager scopes persisted
  end.

Definition hour : Z := 3600000.

(** No answer of the refresh endpoint: the request fails. *)
Definition offline : FetchResult := FetchRejects (JsError "fetch failed").

(** The endpoint answers with a new access token and a new refresh token. *)
Definition rotating : FetchResult :=
  FetchResponse 200 ""
    (inr (credential "AT2" (Some "NEW") (Some (Num (now + hour))))).

(** A manager signed in with the refresh token [OLD]. *)
Definition signed_in (expiry : option number) : World :=
  manager ["read"] (Some (credential "AT1" (Some "OLD") expiry)) None.

(** A manager signed in with a credential that has no refresh token. *)
Definition without_refresh_token : World :=
  manager ["read"] (Some (credential "AT1" None (Some (Num (now - 1000))))) None.

(** A manager with nothing in memory and a persisted credential of the
    scope [read], asked for [read] and [write]. *)
Definition underscoped : World :=
  manager ["read"; "write"] None
          (Some (credential "AT0" (Some "OLD") (Some (Num (now + hour))))).

(** A new manager on an empty store. *)
Definition fresh_install : World := manager ["read"] None None.

(** The listener that [authWithWeb] creates in these environments. *)
Definition listener : Listener :=
  mkListener "c0ffee" "localhost" (Num 45678) 0%nat Pending false [] 0%nat.

Definition forged_callback : string :=
  "/oauth2callback?state=bad&access_token=AT9&expiry_date=1700003600000".

Definition good_callback : string :=
  "/oauth2callback?state=c0ffee&access_token=AT1&expiry_date=1700003600000".

Definition wrapped_callback : string :=
  "/oauth2callback?state=eyJjc3JmIjoiYzBmZmVlIn0=&access_token=AT1&expiry_date=1700003600000".

(** The server fails to listen and no request arrives. *)
Definition port_in_use : Env :=
  env now offline [InServerError "Error: listen EADDRINUSE"].

Definition quiet_env : Env := env now offline [].

(** The world in which the interactive flow of a new manager starts, the
    login it creates, and the world in which it starts to wait. *)
Definition flow_entry : World :=
  Eval vm_compute in
    snd (cached_or_stored quiet_env (refreshToken quiet_env 1) fresh_install).

Definition login : OauthWebLogin :=
  mkOauthWebLogin
    "https://google-workspace-extension.geminicli.com?state=state-c0ffee"
    listener.

Definition waiting : World :=
  Eval vm_compute in snd (start_login quiet_env 0%nat flow_entry).

Definition refreshed : World :=
  Eval vm_compute in
    snd (refreshToken (env now rotating []) 3 (signed_in None)).

(** ** More environments and worlds *)

(** [E] with [OAUTH_CALLBACK_PORT] set. *)
Definition with_port (port : string) (E : Env) : Env :=
  mkEnv (WORKSPACE_CLIENT_ID E) (WORKSPACE_CLOUD_FUNCTION_URL E) (Some port)
        (OAUTH_CALLBACK_HOST E) (Date_now E) (fetch E) (save_error E)
        (writeFileSync_error E) (unlinkSync_error E) (shouldLaunchBrowser E)
        (open_error E) (probe_port E) (randomBytes_hex E) (encode_state E)
        (generateAuthUrl E) (searchParams E) (base64_toString E)
        (JSON_parse E) (inbound E).

(** [E] with a store that cannot be written. *)
Definition with_failing_store (E : Env) : Env :=
  mkEnv (WORKSPACE_CLIENT_ID E) (WORKSPACE_CLOUD_FUNCTION_URL E)
        (OAUTH_CALLBACK_PORT E) (OAUTH_CALLBACK_HOST E) (Date_now E) (fetch E)
        (fun _ => Some (JsError "EACCES: permission denied"))
        (writeFileSync_error E) (unlinkSync_error E) (shouldLaunchBrowser E)
        (open_error E) (probe_port E) (randomBytes_hex E) (encode_state E)
        (generateAuthUrl E) (searchParams E) (base64_toString E)
        (JSON_parse E) (inbound E).

(** The endpoint answers; nothing reaches the callback server. *)
Definition refreshing : Env := env now rotating [].

(** One good callback reaches the server. *)
Definition answered : Env := env now offline [InRequest (Some good_callback)].

(** A manager signed in with a credential that expired a second ago. *)
Definition expired : World := signed_in (Some (Num (now - 1000))).

(** A manager signed in with a credential that expires in exactly five
    minutes. *)
Definition at_boundary : World := signed_in (Some (Num (now + 5 * 60 * 1000))).

(** A new manager on a record of the scope [read] that is good for an
    hour. *)
Definition good_record : Credentials :=
  credential "AT0" (Some "OLD") (Some (Num (now + hour))).

Definition returning : World := manager ["read"] None (Some good_record).

(** The world after the failed refresh of [expired]. *)
Definition after_failed_refresh : World :=
  Eval vm_compute in snd (refreshToken_try quiet_env expired).

(** The world after the sign-in of a new manager. *)
Definition signed_up : World :=
  Eval vm_compute in snd (getAuthenticatedClient answered 2 fresh_install).

(** The world in which [authWithWeb] leaves [flow_entry]. *)
Definition listening : World :=
  Eval vm_compute in snd (authWithWeb quiet_env 0%nat flow_entry).

(** A new manager on a record that expired a second ago. *)
Definition lapsed_record : Credentials :=
  credential "AT0" (Some "OLD") (Some (Num (now - 1000))).

Definition lapsed : World := manager ["read"] None (Some lapsed_record).

End Scenario.

(** * Properties *)

Section Properties.

Variable E : Env.

(** ** Running the monad *)

Lemma bind_ok {A B} (m : M A) (k : A -> M B) w a w' :
  m w = (Ok a, w') -> bind m k w = k a w'.
Proof. intros H. unfold bind. now rewrite H. Qed.

Lemma bind_throw {A B} (m : M A) (k : A -> M B) w e w' :
  m w = (Throw e, w') -> bind m k w = (Throw e, w').
Proof. intros H. unfold bind. now rewrite H. Qed.

Lemma try_catch_rethrow {A} (m : M A) w :
  try_catch m (fun e => throw e) w = m w.
Proof. unfold try_catch, throw. destruct (m w) as [[a|e|] w']; reflexivity. Qed.

(** ** The expiry check *)

Lemma isTokenExpiringSoon_world credentials w :
  snd (isTokenExpiringSoon E credentials w) = w.
Proof. reflexivity. Qed.

Lemma not_expiring_without_expiry credentials w :
  expiry_date credentials = None ->
  isTokenExpiringSoon E credentials w = (Ok false, w).
Proof. intros H. unfold isTokenExpiringSoon. now rewrite H. Qed.

Lemma not_expiring_beyond_buffer credentials w e :
  expiry_date credentials = Some (Num e) ->
  Date_now E (trace w) + 5 * 60 * 1000 < e ->
  isTokenExpiringSoon E credentials w = (Ok false, w).
Proof.
  intros H Hlt. unfold isTokenExpiringSoon, TOKEN_EXPIRY_BUFFER_MS. rewrite H.
  simpl number_lt.
  replace (e <? Date_now E (trace w) + 5 * 60 * 1000) with false
    by (symmetry; apply Z.ltb_ge; lia).
  now rewrite andb_false_r.
Qed.

(** A cached client with a refresh token that is not expiring is returned
    at once, whatever [refreshToken] would do. *)
Lemma cached_client_returned refresh w c :
  this_client w = Some c ->
  truthy_string (refresh_token (credentials_of w c)) = true ->
  isTokenExpiringSoon E (credentials_of w c) w = (Ok false, w) ->
  getAuthenticatedClient_body E refresh w = (Ok c, w).
Proof.
  intros Hc Hrt Hexp.
  cbv beta iota delta [getAuthenticatedClient_body cached_or_stored bind gets
                         get_credentials ret].
  rewrite Hc. cbv beta iota. rewrite Hrt, Hexp. cbv beta iota.
  now rewrite Hc.
Qed.

(** C3: a cached credential with a refresh token whose expiry is more than
    five minutes after the current time is returned as it is:
    [getAuthenticatedClient] returns the cached client and leaves the world
    (in-memory credential, persisted record, trace of effects) unchanged, so
    no refresh call is made. *)
Theorem fresh_cached_credential_returned (f : nat) (w : World) (c : ClientRef)
    (e : Z) :
  this_client w = Some c ->
  truthy_string (refresh_token (credentials_of w c)) = true ->
  expiry_date (credentials_of w c) = Some (Num e) ->
  Date_now E (trace w) + 5 * 60 * 1000 < e ->
  getAuthenticatedClient E (S f) w = (Ok c, w).
Proof.
  intros Hc Hrt He Hlt. cbn [getAuthenticatedClient].
  apply cached_client_returned; auto.
  eapply not_expiring_beyond_buffer; eauto.
Qed.

(** C9: a cached credential with a refresh token and no expiry timestamp is
    treated as not expiring: [getAuthenticatedClient] returns the cached
    client and leaves the world unchanged, whatever the clock reads. *)
Theorem cached_credential_without_expiry_returned (f : nat) (w : World)
    (c : ClientRef) :
  this_client w = Some c ->
  truthy_string (refresh_token (credentials_of w c)) = true ->
  expiry_date (credentials_of w c) = None ->
  getAuthenticatedClient E (S f) w = (Ok c, w).
Proof.
  intros Hc Hrt He. cbn [getAuthenticatedClient].
  apply cached_client_returned; auto.
  now apply not_expiring_without_expiry.
Qed.

(** ** [refreshToken] with a client in memory *)

Lemma refreshToken_with_client f w c :
  this_client w = Some c ->
  refreshToken E (S f) w = refreshToken_try E w.
Proof.
  intros Hc. cbn [refreshToken].
  cbv beta iota delta [refreshToken_body bind gets ret]. now rewrite Hc.
Qed.

(** The outcomes of the [try] block, one by one. *)
Lemma refreshToken_try_cases w c :
  this_client w = Some c ->
  refreshToken_try E w =
  match refresh_token (credentials_of w c) with
  | Some (String a s) =>
      let rt := String a s in
      let w1 := log (EvFetch (refresh_url E) rt) w in
      match fetch E (trace w) (refresh_url E) rt with
      | FetchRejects e => (Throw e, w1)
      | FetchResponse status text json =>
          if response_ok status then
            match json with
            | inl e => (Throw e, w1)
            | inr newTokens =>
                let merged := merged_credentials newTokens (credentials_of w c) in
                let w2 := set_heap (<[c := merged]> (heap w1)) w1 in
                match save_error E (trace w2) with
                | Some e => (Throw e, w2)
                | None => (Ok tt, log (EvStoreSave merged) (set_store (Some merged) w2))
                end
            end
          else (Throw (JsError ("Token refresh failed: " +:+ pretty status
                                +:+ " " +:+ text)), w1)
      end
  | _ => (Throw (JsError "No refresh token available"), w)
  end.
Proof.
  intros Hc. unfold refreshToken_try. rewrite try_catch_rethrow.
  cbv beta iota delta [bind gets get_credentials ret throw]. rewrite Hc.
  cbv beta iota.
  destruct (refresh_token (credentials_of w c)) as [[|a s]|] eqn:Hrt;
    try reflexivity.
  cbv beta iota zeta delta [call_refresh_endpoint]. fold (refresh_url E).
  destruct (fetch E (trace w) (refresh_url E) (String a s)) as [e|status text json];
    try reflexivity.
  destruct (response_ok status); cbn [negb]; try reflexivity.
  destruct json as [e|newTokens]; try reflexivity.
  cbv beta iota zeta delta [setCredentials modify saveCredentials
                            merged_credentials].
  rewrite Hrt. cbn [trace set_heap log].
  destruct (save_error E (trace w ++ [EvFetch (refresh_url E) (String a s)]));
    reflexivity.
Qed.

Lemma credentials_of_insert w c cur merged :
  heap w !! c = Some cur ->
  default no_credentials (<[c := merged]> (heap w) !! c) = merged.
Proof.
  intros Hl. rewrite list_lookup_insert_eq; [reflexivity|].
  eapply lookup_lt_Some; eauto.
Qed.

Lemma refresh_token_in_heap w c rt :
  refresh_token (credentials_of w c) = Some rt ->
  heap w !! c = Some (credentials_of w c).
Proof.
  unfold credentials_of. destruct (heap w !! c); [reflexivity|discriminate].
Qed.


Lemma same_credentials_log w e : same_credentials w (log e w).
Proof. repeat split. Qed.

(** C6: with a client in memory, [refreshToken] fails fast when the
    credential has no refresh token: it throws and leaves the whole world,
    trace included, as it was, so the refresh endpoint is not contacted.
    When the request to the endpoint fails or is answered with a status
    outside 200-299, it throws, and the in-memory credential and the
    persisted record are as they were before the call. *)
Theorem refresh_failure_leaves_credentials (f : nat) (w : World)
    (c : ClientRef) :
  this_client w = Some c ->
  (truthy_string (refresh_token (credentials_of w c)) = false ->
   refreshToken E (S f) w = (Throw (JsError "No refresh token available"), w))
  /\ (forall rt,
        refresh_token (credentials_of w c) = Some rt ->
        rt <> "" ->
        match fetch E (trace w) (refresh_url E) rt with
        | FetchRejects e =>
            exists w',
              refreshToken E (S f) w = (Throw e, w')
              /\ same_credentials w w'
        | FetchResponse status text _ =>
            response_ok status = false ->
            exists w',
              refreshToken E (S f) w
              = (Throw (JsError ("Token refresh failed: " +:+ pretty status
                                 +:+ " " +:+ text)), w')
              /\ same_credentials w w'
        end).
Proof.
  intros Hc.
  rewrite (refreshToken_with_client f w c Hc), (refreshToken_try_cases w c Hc).
  split.
  - destruct (refresh_token (credentials_of w c)) as [[|a s]|];
      cbn [truthy_string]; intros; try reflexivity; discriminate.
  - intros rt Hrt Hne. rewrite Hrt. destruct rt as [|a s]; [congruence|].
    cbv zeta.
    destruct (fetch E (trace w) (refresh_url E) (String a s))
      as [e|status text json].
    + eexists; split; [reflexivity|apply same_credentials_log].
    + intros Hok. rewrite Hok.
      eexists; split; [reflexivity|apply same_credentials_log].
Qed.

(** A failed write of the store is the failure that does change the
    in-memory credential: [setCredentials] has run when [saveCredentials]
    throws. *)
Lemma refresh_save_failure_updates_client (f : nat) (w : World) (c : ClientRef)
    (rt : string) status text newTokens e :
  this_client w = Some c ->
  refresh_token (credentials_of w c) = Some rt ->
  rt <> "" ->
  fetch E (trace w) (refresh_url E) rt = FetchResponse status text (inr newTokens) ->
  response_ok status = true ->
  save_error E (trace w ++ [EvFetch (refresh_url E) rt]) = Some e ->
  exists w',
    refreshToken E (S f) w = (Throw e, w')
    /\ credentials_of w' c = merged_credentials newTokens (credentials_of w c)
    /\ store w' = store w.
Proof.
  intros Hc Hrt Hne Hfetch Hok Hsave.
  rewrite (refreshToken_with_client f w c Hc), (refreshToken_try_cases w c Hc).
  pose proof (refresh_token_in_heap w c rt Hrt) as Hheap.
  rewrite Hrt. destruct rt as [|a s]; [congruence|].
  cbv zeta. rewrite Hfetch, Hok. cbn [trace set_heap log]. rewrite Hsave.
  eexists; split; [reflexivity|]. split; [|reflexivity].
  unfold credentials_of at 1. cbn [heap log set_heap].
  eapply credentials_of_insert; eauto.
Qed.

(** The handler of the ['tokens'] event merges the other way: it persists
    the refresh token the event carries when there is one. *)
Lemma on_tokens_prefers_returned_token tokens w rt :
  refresh_token tokens = Some rt ->
  rt <> "" ->
  save_error E (trace w ++ [EvStoreLoad]) = None ->
  exists persisted,
    store (snd (on_tokens E tokens w)) = Some persisted
    /\ refresh_token persisted = Some rt.
Proof.
  intros Hrt Hne Hsave.
  cbv beta iota zeta delta [on_tokens try_catch bind loadCredentials
                            saveCredentials].
  cbn [trace log]. rewrite Hsave. cbn [snd store log set_store].
  eexists; split; [reflexivity|]. cbn [refresh_token]. rewrite Hrt.
  destruct rt; [congruence|reflexivity].
Qed.

(** ** [clearAuth] *)

Lemma clearAuth_clears w :
  exists w',
    clearAuth E w = (Ok tt, w') /\ this_client w' = None /\ store w' = None.
Proof.
  cbv beta iota delta [clearAuth bind modify clearCredentials try_catch
                       unlinkSync ret].
  cbn [auth_url_file trace log set_store set_this_client].
  destruct (auth_url_file w);
    [destruct (unlinkSync_error E (trace w ++ [EvStoreClear]))|];
    eexists; (split; [reflexivity|]); cbn; auto.
Qed.

(** C7: [clearAuth] called twice in succession raises no error either
    time; after the first call, and still after the second, there is no
    in-memory credential and no persisted record.  (The store's [clear] is
    total, as its contract has it; an error of [unlinkSync] is swallowed.) *)
Theorem clearAuth_twice (w : World) :
  exists w1 w2,
    clearAuth E w = (Ok tt, w1)
    /\ clearAuth E w1 = (Ok tt, w2)
    /\ bind (clearAuth E) (fun _ => clearAuth E) w = (Ok tt, w2)
    /\ this_client w1 = None /\ store w1 = None
    /\ this_client w2 = None /\ store w2 = None.
Proof.
  destruct (clearAuth_clears w) as (w1 & H1 & Hc1 & Hs1).
  destruct (clearAuth_clears w1) as (w2 & H2 & Hc2 & Hs2).
  exists w1, w2. repeat split; auto.
  unfold bind. now rewrite H1.
Qed.

(** ** Enough fuel

    With a client in memory [refreshToken] does not call
    [getAuthenticatedClient], and [getAuthenticatedClient] calls
    [refreshToken] only with a client in memory: two units of fuel are enough
    for [getAuthenticatedClient] and three for [refreshToken]. *)

Lemma total_ret {A} (a : A) : total (ret a).
Proof. intros w. discriminate. Qed.

Lemma total_throw {A} e : total (@throw A e).
Proof. intros w. discriminate. Qed.

Lemma total_gets {A} (f : World -> A) : total (gets f).
Proof. intros w. discriminate. Qed.

Lemma total_modify f : total (modify f).
Proof. intros w. discriminate. Qed.

Lemma total_bind {A B} (m : M A) (k : A -> M B) :
  total m -> (forall a, total (k a)) -> total (bind m k).
Proof.
  intros Hm Hk w. unfold bind. specialize (Hm w).
  destruct (m w) as [[a|e|] w']; cbn in *; [apply Hk|discriminate|congruence].
Qed.

Lemma total_try_catch {A} (m : M A) (h : Error -> M A) :
  total m -> (forall e, total (h e)) -> total (try_catch m h).
Proof.
  intros Hm Hh w. unfold try_catch. specialize (Hm w).
  destruct (m w) as [[a|e|] w']; cbn in *; [discriminate|apply Hh|congruence].
Qed.

Ltac total_prim :=
  let w := fresh "w" in
  intros w;
  repeat match goal with
         | |- context [match ?x with _ => _ end] => destruct x
         end;
  cbn; discriminate.

Lemma total_loadCredentials : total loadCredentials.
Proof. total_prim. Qed.

Lemma total_saveCredentials c : total (saveCredentials E c).
Proof. unfold saveCredentials. total_prim. Qed.

Lemma total_clearCredentials : total clearCredentials.
Proof. total_prim. Qed.

Lemma total_new_OAuth2 : total new_OAuth2.
Proof. total_prim. Qed.

Lemma total_isTokenExpiringSoon c : total (isTokenExpiringSoon E c).
Proof. intros w. discriminate. Qed.

Lemma total_call_refresh_endpoint rt : total (call_refresh_endpoint E rt).
Proof. unfold call_refresh_endpoint. total_prim. Qed.

Lemma total_writeFileSync path contents : total (writeFileSync E path contents).
Proof. unfold writeFileSync. total_prim. Qed.

Lemma total_open url : total (open E url).
Proof. unfold open. total_prim. Qed.

Lemma total_await_login webLogin : total (await_login E webLogin).
Proof. unfold await_login. total_prim. Qed.

Lemma total_getAvailablePort : total (getAvailablePort E).
Proof.
  unfold getAvailablePort.
  destruct (OAUTH_CALLBACK_PORT E) as [[|a s]|]; total_prim.
Qed.

Create HintDb total discriminated.
#[local] Hint Resolve total_ret total_throw total_gets total_modify
  total_loadCredentials total_saveCredentials total_clearCredentials
  total_new_OAuth2 total_isTokenExpiringSoon total_call_refresh_endpoint
  total_writeFileSync total_open total_await_login total_getAvailablePort
  : total.

Ltac total_step :=
  first
    [ match goal with
      | |- total (bind _ _) => apply total_bind; [|intros ?]
      | |- total (try_catch _ _) => apply total_try_catch; [|intros ?]
      | |- total (match ?x with _ => _ end) => destruct x
      | |- total (let _ := _ in _) => cbv zeta
      end
    | solve [auto with total]
    | solve [unfold setCredentials, get_credentials; auto with total] ].

Lemma total_refreshToken_try : total (refreshToken_try E).
Proof. unfold refreshToken_try. repeat total_step. Qed.

Lemma total_loadCachedCredentials client : total (loadCachedCredentials client).
Proof. unfold loadCachedCredentials. repeat total_step. Qed.

Lemma total_interactive_flow client : total (interactive_flow E client).
Proof.
  unfold interactive_flow, start_login, finish_login, authWithWeb.
  repeat total_step.
Qed.

Lemma total_cached_or_stored refresh :
  total refresh -> total (cached_or_stored E refresh).
Proof.
  intros Hr. pose proof total_loadCachedCredentials.
  unfold cached_or_stored. repeat total_step.
Qed.

Lemma total_getAuthenticatedClient_body refresh :
  total refresh -> total (getAuthenticatedClient_body E refresh).
Proof.
  intros Hr. pose proof (total_cached_or_stored refresh Hr).
  pose proof total_interactive_flow.
  unfold getAuthenticatedClient_body. repeat total_step.
Qed.

Lemma bind_ext_at {A B} (m m' : M A) (k k' : A -> M B) w :
  m w = m' w ->
  (forall a w', m w = (Ok a, w') -> k a w' = k' a w') ->
  bind m k w = bind m' k' w.
Proof.
  intros Hm Hk. unfold bind. rewrite <- Hm.
  destruct (m w) as [[a|e|] w']; auto.
Qed.

Lemma try_catch_ext_at {A} (m m' : M A) (h : Error -> M A) w :
  m w = m' w -> try_catch m h w = try_catch m' h w.
Proof. intros Hm. unfold try_catch. now rewrite Hm. Qed.

Ltac inv_step H :=
  cbv beta iota delta [gets get_credentials isTokenExpiringSoon modify ret] in H;
  injection H as ? ?; subst.

Ltac ext_step :=
  match goal with
  | |- bind _ _ ?w = bind _ _ ?w =>
      apply bind_ext_at;
      [|let a := fresh "a" in
        let w' := fresh "w" in
        let H := fresh "H" in
        intros a w' H; try inv_step H]
  | |- (if ?b then _ else _) ?w = (if ?b then _ else _) ?w => destruct b
  | |- (match ?x with _ => _ end) ?w = (match ?x with _ => _ end) ?w =>
      destruct x eqn:?
  | |- try_catch _ _ ?w = try_catch _ _ ?w => apply try_catch_ext_at
  | |- _ => reflexivity
  end.

(** [cached_or_stored] runs [refreshToken] only in worlds with a client in
    memory. *)
Lemma cached_or_stored_ext (r1 r2 : M unit) :
  (forall w, this_client w <> None -> r1 w = r2 w) ->
  forall w, cached_or_stored E r1 w = cached_or_stored E r2 w.
Proof.
  intros Hr w. unfold cached_or_stored.
  repeat ext_step; apply Hr; cbn; congruence.
Qed.

Lemma getAuthenticatedClient_body_ext (r1 r2 : M unit) :
  (forall w, this_client w <> None -> r1 w = r2 w) ->
  forall w,
    getAuthenticatedClient_body E r1 w = getAuthenticatedClient_body E r2 w.
Proof.
  intros Hr w. unfold getAuthenticatedClient_body.
  apply bind_ext_at; [now apply cached_or_stored_ext|reflexivity].
Qed.

(** [getAuthenticatedClient] without fuel: its body over the [try] block of
    [refreshToken]. *)
Lemma getAuthenticatedClient_fuel f w :
  getAuthenticatedClient E (S (S f)) w
  = getAuthenticatedClient_body E (refreshToken_try E) w.
Proof.
  cbn [getAuthenticatedClient]. apply getAuthenticatedClient_body_ext.
  intros w0 Hw0. destruct (this_client w0) as [c|] eqn:Hc; [|congruence].
  now apply refreshToken_with_client with (c := c).
Qed.

Lemma getAuthenticatedClient_total f : total (getAuthenticatedClient E (S (S f))).
Proof.
  intros w. rewrite getAuthenticatedClient_fuel.
  apply total_getAuthenticatedClient_body, total_refreshToken_try.
Qed.

Lemma refreshToken_fuel f w :
  refreshToken E (S (S (S f))) w
  = refreshToken_body E (getAuthenticatedClient_body E (refreshToken_try E)) w.
Proof.
  cbn [refreshToken]. unfold refreshToken_body.
  repeat ext_step. apply getAuthenticatedClient_fuel.
Qed.

Lemma refreshToken_total f : total (refreshToken E (S (S (S f)))).
Proof.
  intros w. rewrite refreshToken_fuel. revert w.
  pose proof (total_getAuthenticatedClient_body _ total_refreshToken_try).
  pose proof total_refreshToken_try.
  change (total (refreshToken_body E
                   (getAuthenticatedClient_body E (refreshToken_try E)))).
  unfold refreshToken_body. repeat total_step.
Qed.


(** ** The callback server *)

Lemma settle_settled outcome p : p <> Pending -> settle outcome p = p.
Proof. destruct p; [congruence|reflexivity|reflexivity]. Qed.

Lemma settle_not_pending outcome p : outcome <> Pending -> settle outcome p <> Pending.
Proof. destruct p; cbn; congruence. Qed.

Ltac handler_cases :=
  repeat match goal with
         | |- context [match ?x with _ => _ end] =>
             lazymatch x with
             | context [match _ with _ => _ end] => fail
             | _ => destruct x eqn:?
             end
         end.

(** Whatever the request, the handler settles the completion signal with
    one outcome (which leaves a settled signal as it is), counts one run,
    and closes the server. *)
Lemma requestListener_outcome l req_url w :
  exists outcome,
    outcome <> Pending
    /\ completion (fst (requestListener E l req_url w))
       = settle outcome (completion l)
    /\ closed (fst (requestListener E l req_url w)) = true
    /\ handled (fst (requestListener E l req_url w)) = S (handled l).
Proof.
  unfold requestListener, handle_callback.
  handler_cases; cbn;
    (eexists; split; [|split; [reflexivity|split; reflexivity]]); discriminate.
Qed.

(** A settled signal stays as it is, whatever reaches the server. *)
Lemma deliver_settled s i :
  completion (fst s) <> Pending ->
  completion (fst (deliver E s i)) = completion (fst s).
Proof.
  intros Hs. destruct s as [l w], i as [req_url|err]; cbn [deliver fst snd].
  - destruct (closed l); [reflexivity|].
    destruct (requestListener_outcome l req_url w) as (o & _ & -> & _).
    now apply settle_settled.
  - cbn. now apply settle_settled.
Qed.

Lemma deliver_all_settled events s :
  completion (fst s) <> Pending ->
  completion (fst (deliver_all E events s)) = completion (fst s).
Proof.
  revert s. induction events as [|i events IH]; intros s Hs; [reflexivity|].
  cbn [deliver_all fold_left]. fold (deliver_all E events (deliver E s i)).
  rewrite IH; rewrite deliver_settled; auto.
Qed.

(** A closed server stays closed and leaves the world alone. *)
Lemma deliver_closed s i :
  closed (fst s) = true ->
  closed (fst (deliver E s i)) = true
  /\ snd (deliver E s i) = snd s
  /\ handled (fst (deliver E s i)) = handled (fst s).
Proof.
  intros Hc. destruct s as [l w], i as [req_url|err]; cbn [deliver fst snd] in *.
  - now rewrite Hc.
  - cbn. auto.
Qed.

Lemma deliver_all_closed events s :
  closed (fst s) = true ->
  closed (fst (deliver_all E events s)) = true
  /\ snd (deliver_all E events s) = snd s
  /\ handled (fst (deliver_all E events s)) = handled (fst s).
Proof.
  revert s. induction events as [|i events IH]; intros s Hc; [auto|].
  cbn [deliver_all fold_left]. fold (deliver_all E events (deliver E s i)).
  destruct (deliver_closed s i Hc) as (Hc' & Hw & Hh).
  destruct (IH _ Hc') as (? & ? & ?). repeat split; congruence.
Qed.

Lemma deliver_single_shot s i :
  single_shot (fst s) -> single_shot (fst (deliver E s i)).
Proof.
  intros (Hle & Hopen & Hrun).
  destruct s as [l w], i as [req_url|err]; cbn [deliver fst snd] in *.
  - destruct (closed l) eqn:Hc.
    { cbn [fst]. repeat split; auto; intros; congruence. }
    destruct (requestListener_outcome l req_url w) as (o & _ & _ & Hc' & Hh).
    rewrite (Hopen eq_refl) in Hh.
    repeat split; [rewrite Hh; lia|congruence|auto].
  - cbn. repeat split; auto.
Qed.

Lemma deliver_all_single_shot events s :
  single_shot (fst s) -> single_shot (fst (deliver_all E events s)).
Proof.
  revert s. induction events as [|i events IH]; intros s Hs; [exact Hs|].
  cbn [deliver_all fold_left]. fold (deliver_all E events (deliver E s i)).
  now apply IH, deliver_single_shot.
Qed.


Lemma csrfValid_carries csrfToken state :
  csrfValid E csrfToken state = true -> state_carries_csrf E csrfToken state.
Proof.
  unfold csrfValid. destruct state as [[|c s]|]; cbv zeta.
  - intros H. left. now apply bool_decide_eq_true in H.
  - destruct (bool_decide (Some (String c s) = Some csrfToken)) eqn:Hraw.
    + intros _. left. now apply bool_decide_eq_true in Hraw.
    + destruct (JSON_parse E (base64_toString E (String c s)))
        as [e|decoded] eqn:Hparse; [discriminate|].
      destruct decoded as [| | | |items|members]; cbn; try discriminate.
      destruct (assoc "csrf" members) as [[| | |s'| |]|] eqn:Hcsrf; cbn;
        try discriminate.
      intros Heq. apply String.eqb_eq in Heq. subst s'.
      right. exists (String c s), members. auto.
  - intros H. left. now apply bool_decide_eq_true in H.
Qed.


(** ** The persisted record and the interactive flow *)

(** C4: with no client in memory and a persisted credential whose scope
    set lacks a requested scope, [getAuthenticatedClient] is the interactive
    flow run on a new client, from a world in which the persisted record has
    been cleared, there is still no client in memory, and the new client has
    no credentials: the persisted credential has been set nowhere. *)
Theorem underscoped_record_cleared_then_interactive (f : nat) (w : World)
    (persisted : Credentials) (missing : string) :
  this_client w = None ->
  store w = Some persisted ->
  missing ∈ this_scopes w ->
  missing ∉ savedScopes_of persisted ->
  let oAuth2Client := length (heap w) in
  let w1 :=
    log EvStoreClear
      (set_store None
         (log EvStoreLoad (set_heap (heap w ++ [no_credentials]) w))) in
  getAuthenticatedClient E (S f) w = interactive_flow E oAuth2Client w1
  /\ store w1 = None
  /\ this_client w1 = None
  /\ heap w1 !! oAuth2Client = Some no_credentials
  /\ trace w1 = (trace w ++ [EvStoreLoad; EvStoreClear])%list.
Proof.
  intros Hc Hs Hin Hout o w1.
  assert (Hfilter : exists x xs,
             filter (fun scope => scope ∉ savedScopes_of persisted)
                    (this_scopes w) = x :: xs).
  { destruct (filter _ (this_scopes w)) as [|x xs] eqn:Hf; [|eauto].
    exfalso. apply (not_elem_of_nil missing). rewrite <- Hf.
    apply list_elem_of_filter. auto. }
  destruct Hfilter as (x & xs & Hfilter).
  split; [|split; [reflexivity|split; [exact Hc|split]]].
  - cbn [getAuthenticatedClient].
    cbv beta iota delta [getAuthenticatedClient_body cached_or_stored bind gets
                         ret new_OAuth2 loadCachedCredentials loadCredentials].
    rewrite Hc. cbn [store this_scopes log set_heap]. rewrite Hs.
    cbv beta iota zeta.
    change (this_scopes (log EvStoreLoad
                           (set_heap (heap w ++ [no_credentials]) w)))
      with (this_scopes w).
    rewrite Hfilter. reflexivity.
  - subst w1 o. cbn [heap log set_store set_heap].
    rewrite lookup_app_r by lia. now rewrite Nat.sub_diag.
  - subst w1. cbn [trace log set_store set_heap]. now rewrite <- app_assoc.
Qed.

Lemma same_credentials_refl w : same_credentials w w.
Proof. repeat split. Qed.

Lemma same_credentials_trans w1 w2 w3 :
  same_credentials w1 w2 -> same_credentials w2 w3 -> same_credentials w1 w3.
Proof. intros (? & ? & ?) (? & ? & ?). repeat split; congruence. Qed.

Lemma quiet_ret {A} (a : A) : quiet (ret a).
Proof.
  intros w r w' [= <- <-]. split; [apply same_credentials_refl|].
  exists []. now rewrite app_nil_r.
Qed.

Lemma quiet_gets {A} (f : World -> A) : quiet (gets f).
Proof.
  intros w r w' [= <- <-]. split; [apply same_credentials_refl|].
  exists []. now rewrite app_nil_r.
Qed.

Lemma quiet_throw {A} e : quiet (@throw A e).
Proof.
  intros w r w' [= <- <-]. split; [apply same_credentials_refl|].
  exists []. now rewrite app_nil_r.
Qed.

Lemma quiet_log ev : store_write ev = false -> quiet (modify (log ev)).
Proof.
  intros Hev w r w' [= <- <-]. split; [apply same_credentials_log|].
  exists [ev]. cbn. now rewrite Hev.
Qed.

Lemma quiet_bind {A B} (m : M A) (k : A -> M B) :
  quiet m -> (forall a, quiet (k a)) -> quiet (bind m k).
Proof.
  intros Hm Hk w r w' Hrun. unfold bind in Hrun.
  destruct (m w) as [[a|e|] w1] eqn:Hmw;
    try (injection Hrun as <- <-; now apply (Hm _ _ _ Hmw)).
  destruct (Hm _ _ _ Hmw) as (Hs1 & t1 & Ht1 & Hq1).
  destruct (Hk a _ _ _ Hrun) as (Hs2 & t2 & Ht2 & Hq2).
  split; [eapply same_credentials_trans; eauto|].
  exists (t1 ++ t2)%list. rewrite Ht2, Ht1, <- app_assoc. split; [reflexivity|].
  rewrite existsb_app, Hq1, Hq2. reflexivity.
Qed.

Lemma quiet_try_catch {A} (m : M A) (h : Error -> M A) :
  quiet m -> (forall e, quiet (h e)) -> quiet (try_catch m h).
Proof.
  intros Hm Hh w r w' Hrun. unfold try_catch in Hrun.
  destruct (m w) as [[a|e|] w1] eqn:Hmw;
    try (injection Hrun as <- <-; now apply (Hm _ _ _ Hmw)).
  destruct (Hm _ _ _ Hmw) as (Hs1 & t1 & Ht1 & Hq1).
  destruct (Hh e _ _ _ Hrun) as (Hs2 & t2 & Ht2 & Hq2).
  split; [eapply same_credentials_trans; eauto|].
  exists (t1 ++ t2)%list. rewrite Ht2, Ht1, <- app_assoc. split; [reflexivity|].
  rewrite existsb_app, Hq1, Hq2. reflexivity.
Qed.

Ltac quiet_prim :=
  let w := fresh "w" in
  let r := fresh "r" in
  let w' := fresh "w" in
  let H := fresh "H" in
  intros w r w' H;
  repeat match type of H with
         | context [match ?x with _ => _ end] => destruct x
         end;
  injection H as <- <-;
  (split; [repeat split|]);
  first [ exists []; split; [now rewrite app_nil_r|reflexivity]
        | eexists [_]; split; reflexivity ].

Lemma quiet_writeFileSync path contents : quiet (writeFileSync E path contents).
Proof. unfold writeFileSync. quiet_prim. Qed.

Lemma quiet_open url : quiet (open E url).
Proof. unfold open. quiet_prim. Qed.

Lemma quiet_getAvailablePort : quiet (getAvailablePort E).
Proof.
  unfold getAvailablePort.
  destruct (OAUTH_CALLBACK_PORT E) as [[|a s]|]; quiet_prim.
Qed.

Ltac quiet_step :=
  first
    [ match goal with
      | |- quiet (bind _ _) => apply quiet_bind; [|intros ?]
      | |- quiet (try_catch _ _) => apply quiet_try_catch; [|intros ?]
      | |- quiet (modify (log _)) => apply quiet_log; reflexivity
      | |- quiet (match ?x with _ => _ end) => destruct x
      | |- quiet (let _ := _ in _) => cbv zeta
      end
    | apply quiet_ret | apply quiet_gets | apply quiet_throw
    | apply quiet_writeFileSync | apply quiet_open
    | apply quiet_getAvailablePort ].

(** Up to the wait, the interactive flow leaves the credentials alone. *)
Lemma quiet_start_login client : quiet (start_login E client).
Proof. unfold start_login, authWithWeb. repeat quiet_step. Qed.

(** A signal that is still pending has seen no request handled and no
    server error: the world is as it was. *)
Lemma pending_world_unchanged events s :
  completion (fst (deliver_all E events s)) = Pending ->
  snd (deliver_all E events s) = snd s.
Proof.
  revert s. induction events as [|i events IH]; intros s Hp; [reflexivity|].
  cbn [deliver_all fold_left] in *.
  fold (deliver_all E events (deliver E s i)) in *.
  rewrite (IH _ Hp).
  destruct (completion (fst (deliver E s i))) eqn:Hi.
  - destruct s as [l w], i as [req_url|err]; cbn [deliver fst snd] in *;
      [|reflexivity].
    destruct (closed l); [reflexivity|].
    destruct (requestListener_outcome l req_url w) as (o & Ho & Hc & _).
    rewrite Hc in Hi. now apply settle_not_pending in Hi.
  - rewrite deliver_all_settled in Hp by congruence. congruence.
  - rewrite deliver_all_settled in Hp by congruence. congruence.
Qed.

(** C5, as the code has it: when a call of [getAuthenticatedClient] reaches
    the interactive flow and nothing has settled the completion signal when
    the five minute timer fires (no request has been handled and the server
    has raised no error), the call throws the timeout error, whose message
    ends with the authorization URL of the flow; from the start of the flow
    on, the in-memory credential and the persisted record are not changed
    and no write or clear of the store is logged. *)
Theorem timeout_when_signal_pending (f : nat) (w w1 w2 : World)
    (oAuth2Client : ClientRef) (webLogin : OauthWebLogin) :
  cached_or_stored E (refreshToken E f) w = (Ok (inr oAuth2Client), w1) ->
  start_login E oAuth2Client w1 = (Ok webLogin, w2) ->
  signal_at_timeout E webLogin w2 = Pending ->
  getAuthenticatedClient E (S f) w
  = (Throw (timeout_error webLogin), log EvAwaitLogin w2)
  /\ message (timeout_error webLogin)
     = "Authentication timed out after 5 minutes. Open this URL in your browser: "
       +:+ authUrl webLogin
  /\ same_credentials w1 (log EvAwaitLogin w2)
  /\ exists t,
       trace (log EvAwaitLogin w2) = (trace w1 ++ t)%list
       /\ existsb store_write t = false.
Proof.
  intros Hpre Hstart Hpending.
  destruct (quiet_start_login oAuth2Client _ _ _ Hstart)
    as (Hsame & t & Ht & Hq).
  split; [|split; [reflexivity|split]].
  - cbn [getAuthenticatedClient]. unfold getAuthenticatedClient_body.
    rewrite (bind_ok _ _ _ _ _ Hpre). unfold interactive_flow.
    rewrite (bind_ok _ _ _ _ _ Hstart). unfold finish_login.
    apply bind_throw. unfold await_login.
    unfold signal_at_timeout in Hpending.
    pose proof (pending_world_unchanged _ _ Hpending) as Hw.
    destruct (deliver_all E _ _) as [l w']. cbn [fst snd] in *.
    now rewrite Hpending, Hw.
  - eapply same_credentials_trans; [exact Hsame|apply same_credentials_log].
  - exists (t ++ [EvAwaitLogin])%list. cbn [trace log].
    rewrite Ht, <- app_assoc. split; [reflexivity|].
    rewrite existsb_app, Hq. reflexivity.
Qed.

End Properties.

(** * Further properties of the code *)

Section Further.

Variable E : Env.

(** ** Configuration and port selection *)

Lemma env_or_nonempty v fallback : fallback <> "" -> env_or v fallback <> "".
Proof. intros Hf. destruct v as [[|c s]|]; cbn; congruence. Qed.

(** [loadConfig]: each setting is the environment variable when that is set
    and not empty, and the default otherwise; neither is ever empty. *)
Theorem loadConfig_override_or_default :
  (forall v, v <> "" -> WORKSPACE_CLIENT_ID E = Some v ->
             clientId (loadConfig E) = v)
  /\ (WORKSPACE_CLIENT_ID E = None \/ WORKSPACE_CLIENT_ID E = Some "" ->
      clientId (loadConfig E) = clientId DEFAULT_CONFIG)
  /\ (forall v, v <> "" -> WORKSPACE_CLOUD_FUNCTION_URL E = Some v ->
                cloudFunctionUrl (loadConfig E) = v)
  /\ (WORKSPACE_CLOUD_FUNCTION_URL E = None
      \/ WORKSPACE_CLOUD_FUNCTION_URL E = Some "" ->
      cloudFunctionUrl (loadConfig E) = cloudFunctionUrl DEFAULT_CONFIG)
  /\ clientId (loadConfig E) <> ""
  /\ cloudFunctionUrl (loadConfig E) <> "".
Proof.
  unfold loadConfig. cbn [clientId cloudFunctionUrl].
  repeat split.
  - intros v Hv ->. destruct v; [congruence|reflexivity].
  - intros [-> | ->]; reflexivity.
  - intros v Hv ->. destruct v; [congruence|reflexivity].
  - intros [-> | ->]; reflexivity.
  - apply env_or_nonempty. discriminate.
  - apply env_or_nonempty. discriminate.
Qed.

Lemma drop_string_split n s :
  exists pre, s = pre +:+ drop_string n s
              /\ String.length (drop_string n s) = (String.length s - n)%nat.
Proof.
  revert s. induction n as [|n IH]; intros s.
  - exists "". cbn. split; [reflexivity|lia].
  - destruct s as [|c r]; [exists ""; split; reflexivity|].
    destruct (IH r) as (pre & Hpre & Hlen).
    exists (String c pre). split; [rewrite Hpre at 1; reflexivity|exact Hlen].
Qed.



(** ** The callback handler *)

(** The check of the state accepts exactly what the flow sends: for a state
    that is present and not empty, [csrfValid] holds if and only if the state
    is the raw token or base64 of a JSON object whose [csrf] is the token.
    A missing or empty state passes only against an empty token. *)
Theorem csrfValid_iff (csrfToken : string) (state : option string) :
  (forall s, state = Some s -> s <> "" ->
     (csrfValid E csrfToken state = true
      <-> state_carries_csrf E csrfToken state))
  /\ (state = None \/ state = Some "" ->
      (csrfValid E csrfToken state = true <-> state = Some csrfToken)).
Proof.
  split.
  - intros s -> Hs. split; [apply csrfValid_carries|].
    destruct s as [|c r]; [congruence|]. unfold csrfValid. cbv zeta.
    intros [Hraw|(s' & members & Hs' & Hparse & Hcsrf)].
    + rewrite bool_decide_eq_true_2 by exact Hraw. reflexivity.
    + injection Hs' as <-.
      destruct (bool_decide (Some (String c r) = Some csrfToken));
        [reflexivity|].
      rewrite Hparse. cbn [js_prop]. rewrite Hcsrf. cbn.
      apply String.eqb_refl.
  - intros [-> | ->]; unfold csrfValid; cbv zeta;
      apply bool_decide_eq_true.
Qed.

Lemma truthy_string_true s : truthy_string s = true -> exists c r, s = Some (String c r).
Proof. destruct s as [[|c r]|]; cbn; try discriminate. eauto. Qed.

(** The handler accepts a callback only when every check passes: if it
    resolves a pending completion signal, the request was on the callback
    path, its query parsed, the state carried the flow's token, there was no
    [error] parameter, [access_token] and [expiry_date] were present and not
    empty, and the client's credentials are exactly the tokens of the query.
    In every other case the world is left as it was. *)
Theorem resolved_only_by_valid_callback (l : Listener)
    (req_url : option string) (w : World) :
  completion l = Pending ->
  (completion (fst (requestListener E l req_url w)) = Resolved ->
   exists url qs,
     req_url = Some url
     /\ String.prefix "/oauth2callback" url = true
     /\ searchParams E url (listener_base l) = inr qs
     /\ state_carries_csrf E (l_csrfToken l) (assoc "state" qs)
     /\ truthy_string (assoc "error" qs) = false
     /\ truthy_string (assoc "access_token" qs) = true
     /\ truthy_string (assoc "expiry_date" qs) = true
     /\ requestListener E l req_url w
        = (callback_accepted l,
           set_heap (<[l_client l := callback_tokens qs]> (heap w)) w))
  /\ (completion (fst (requestListener E l req_url w)) <> Resolved ->
      snd (requestListener E l req_url w) = w).
Proof.
  intros Hp. unfold requestListener, handle_callback. fold (listener_base l).
  destruct req_url as [[|c u]|];
    try (split; [cbn; rewrite Hp; discriminate|reflexivity]).
  destruct (String.prefix "/oauth2callback" (String c u)) eqn:Hpath;
    cbn [negb];
    try (split; [cbn; rewrite Hp; discriminate|reflexivity]).
  destruct (searchParams E (String c u) (listener_base l)) as [e|qs] eqn:Hqs;
    try (split; [cbn; rewrite Hp; discriminate|reflexivity]).
  cbv zeta.
  destruct (csrfValid E (l_csrfToken l) (assoc "state" qs)) eqn:Hv;
    cbn [negb];
    try (split; [cbn; rewrite Hp; discriminate|reflexivity]).
  destruct (assoc "error" qs) as [[|c' e']|] eqn:Herr;
    try (split; [cbn; rewrite Hp; discriminate|reflexivity]);
    (destruct (assoc "access_token" qs) as [[|ca ra]|] eqn:Hat;
     try (split; [cbn; rewrite Hp; discriminate|reflexivity]);
     destruct (assoc "expiry_date" qs) as [[|ce re]|] eqn:Hed;
     try (split; [cbn; rewrite Hp; discriminate|reflexivity]);
     (split; [|cbn; rewrite Hp; cbn; intros Hn; now destruct Hn]);
     intros _; exists (String c u), qs;
     repeat split; auto using csrfValid_carries;
     try (rewrite Herr; reflexivity); try (rewrite Hat; reflexivity);
     try (rewrite Hed; reflexivity);
     unfold callback_accepted, callback_tokens;
     rewrite Hat, Hed; reflexivity).
Qed.

Lemma touches_only_refl client w : touches_only client w w.
Proof. repeat split. Qed.

Lemma touches_only_trans client w1 w2 w3 :
  touches_only client w1 w2 -> touches_only client w2 w3 ->
  touches_only client w1 w3.
Proof.
  intros (? & ? & ? & ? & ? & Hfst) (? & ? & ? & ? & ? & Hsnd).
  repeat split; try congruence.
  intros r Hr. rewrite Hsnd, Hfst; auto.
Qed.

Lemma touches_only_set client c w :
  touches_only client w (set_heap (<[client := c]> (heap w)) w).
Proof.
  repeat split; cbn [heap set_heap]; [apply length_insert|].
  intros r Hr. apply list_lookup_insert_ne. congruence.
Qed.

Ltac branch_cases :=
  repeat match goal with
         | |- context [match ?x with _ => _ end] =>
             lazymatch x with
             | context [match _ with _ => _ end] => fail
             | _ => destruct x eqn:?
             end
         end.

(** One run of the handler keeps what the handler closes over and touches
    at most the credentials of the flow's client. *)
Lemma requestListener_frame l req_url w :
  l_client (fst (requestListener E l req_url w)) = l_client l
  /\ touches_only (l_client l) w (snd (requestListener E l req_url w)).
Proof.
  unfold requestListener, handle_callback.
  branch_cases; cbn [fst snd];
    (split; [reflexivity|]);
    first [apply touches_only_refl | apply touches_only_set].
Qed.

(** The callback server never writes the manager or the store: whatever
    reaches the listener of a flow, [this.client], the persisted record, the
    URL file and the trace are as before, no client object is created, and
    the credentials of every client object other than the flow's own are
    unchanged.  A callback that comes after the flow was abandoned cannot
    reach the client the manager holds by then. *)
Theorem listener_touches_only_its_client (events : list Inbound)
    (l : Listener) (w : World) :
  l_client (fst (deliver_all E events (l, w))) = l_client l
  /\ touches_only (l_client l) w (snd (deliver_all E events (l, w))).
Proof.
  revert l w. induction events as [|i events IH]; intros l w.
  - split; [reflexivity|apply touches_only_refl].
  - cbn [deliver_all fold_left].
    fold (deliver_all E events (deliver E (l, w) i)).
    assert (Hstep : l_client (fst (deliver E (l, w) i)) = l_client l
                    /\ touches_only (l_client l) w (snd (deliver E (l, w) i))).
    { destruct i as [req_url|err]; cbn [deliver fst snd].
      - destruct (closed l);
          [split; [reflexivity|apply touches_only_refl]
          |apply requestListener_frame].
      - split; [reflexivity|apply touches_only_refl]. }
    destruct (deliver E (l, w) i) as [l1 w1]. cbn [fst snd] in Hstep.
    destruct Hstep as (Hc & Ht). destruct (IH l1 w1) as (Hc' & Ht').
    rewrite Hc in *. split; [exact Hc'|].
    eapply touches_only_trans; eauto.
Qed.

(** The handler answers the browser at most once per request.  It ends the
    response on every path but two: when [access_token] or [expiry_date] is
    missing, and when the URL constructor throws, the signal is rejected and
    the response is never ended. *)
Theorem handler_replies_at_most_once (l : Listener) (req_url : option string)
    (w : World) :
  (exists body,
      replies (fst (requestListener E l req_url w)) = (replies l ++ [body])%list)
  \/ (replies (fst (requestListener E l req_url w)) = replies l
      /\ (completion (fst (requestListener E l req_url w))
          = settle (Rejected missing_tokens_error) (completion l)
          \/ exists url e,
               req_url = Some url
               /\ searchParams E url (listener_base l) = inl e
               /\ completion (fst (requestListener E l req_url w))
                  = settle (Rejected e) (completion l))).
Proof.
  unfold requestListener, handle_callback. fold (listener_base l).
  destruct req_url as [[|c u]|]; try (left; eexists; reflexivity).
  destruct (negb (String.prefix "/oauth2callback" (String c u)));
    try (left; eexists; reflexivity).
  destruct (searchParams E (String c u) (listener_base l)) as [e|qs] eqn:Hqs.
  { right. split; [reflexivity|]. right. exists (String c u), e. auto. }
  cbv zeta.
  destruct (negb (csrfValid E (l_csrfToken l) (assoc "state" qs)));
    try (left; eexists; reflexivity).
  destruct (assoc "error" qs) as [[|c' e']|];
    try (left; eexists; reflexivity);
    (destruct (assoc "access_token" qs) as [[|ca ra]|];
     try (right; split; [reflexivity|left; reflexivity]);
     destruct (assoc "expiry_date" qs) as [[|ce re]|];
     try (right; split; [reflexivity|left; reflexivity]);
     left; eexists; reflexivity).
Qed.

Lemma settled_after_request events l w :
  closed l = false ->
  existsb is_request events = true ->
  completion (fst (deliver_all E events (l, w))) <> Pending.
Proof.
  revert l w. induction events as [|i events IH]; intros l w Hopen Hreq;
    [discriminate|].
  cbn [deliver_all fold_left].
  fold (deliver_all E events (deliver E (l, w) i)).
  destruct i as [req_url|err]; cbn [deliver fst snd existsb is_request orb] in *.
  - rewrite Hopen.
    destruct (requestListener_outcome E l req_url w) as (o & Ho & Hc & _).
    rewrite deliver_all_settled; rewrite Hc; now apply settle_not_pending.
  - apply (IH (on_server_error err l) w); assumption.
Qed.

(** The server of a flow is closed exactly when a request has reached it:
    an ['error'] event does not close it.  Nothing else closes it either: as
    long as the completion signal is pending, which is the case when the
    flow times out, the server is still listening. *)
Theorem server_closed_iff_request (events : list Inbound) (l : Listener)
    (w : World) :
  closed l = false ->
  closed (fst (deliver_all E events (l, w))) = existsb is_request events
  /\ (completion (fst (deliver_all E events (l, w))) = Pending ->
      closed (fst (deliver_all E events (l, w))) = false).
Proof.
  intros Hopen.
  assert (Hclosed : closed (fst (deliver_all E events (l, w)))
                    = existsb is_request events).
  { revert l w Hopen. induction events as [|i events IH]; intros l w Hopen.
    - exact Hopen.
    - cbn [deliver_all fold_left existsb].
      fold (deliver_all E events (deliver E (l, w) i)).
      destruct i as [req_url|err]; cbn [deliver fst snd is_request orb].
      + rewrite Hopen.
        destruct (requestListener_outcome E l req_url w) as (_ & _ & _ & Hc & _).
        now destruct (deliver_all_closed E events _ Hc) as (-> & _).
      + apply (IH (on_server_error err l) w). exact Hopen. }
  split; [exact Hclosed|].
  intros Hpending. rewrite Hclosed.
  destruct (existsb is_request events) eqn:Hreq; [|reflexivity].
  destruct (settled_after_request events l w Hopen Hreq Hpending).
Qed.

(** ** The paths of [getAuthenticatedClient] *)

Lemma isTokenExpiringSoon_cases c w :
  (expires_within_buffer (Date_now E (trace w)) c
   /\ isTokenExpiringSoon E c w = (Ok true, w))
  \/ (~ expires_within_buffer (Date_now E (trace w)) c
      /\ isTokenExpiringSoon E c w = (Ok false, w)).
Proof.
  unfold isTokenExpiringSoon, expires_within_buffer, TOKEN_EXPIRY_BUFFER_MS.
  destruct (expiry_date c) as [[|e]|].
  - right. split; [intros (e & He & _); discriminate|reflexivity].
  - cbn [truthy_number number_lt].
    destruct (e =? 0) eqn:H0; cbn [negb andb].
    + right. apply Z.eqb_eq in H0.
      split; [intros (e' & [= <-] & Hne & _); congruence|reflexivity].
    + apply Z.eqb_neq in H0.
      destruct (e <? Date_now E (trace w) + 5 * 60 * 1000) eqn:Hlt.
      * left. apply Z.ltb_lt in Hlt. split; [exists e; auto|reflexivity].
      * right. apply Z.ltb_ge in Hlt.
        split; [intros (e' & [= <-] & _ & Hlt'); lia|reflexivity].
  - right. split; [intros (e & He & _); discriminate|reflexivity].
Qed.

Lemma new_client_credentials (h : list Credentials) c :
  default no_credentials
    (<[length h := c]> (h ++ [no_credentials])%list !! length h) = c.
Proof.
  rewrite list_lookup_insert_eq; [reflexivity|].
  rewrite length_app. cbn. lia.
Qed.

(** Without a usable credential in memory, [getAuthenticatedClient] starts
    at the store: what it does there, case by case. *)
Lemma cached_or_stored_from_store refresh w :
  cache_unusable w ->
  cached_or_stored E refresh w =
  let o := length (heap w) in
  let w1 := log EvStoreLoad (set_heap (heap w ++ [no_credentials]) w) in
  match store w with
  | None => (Ok (inr o), w1)
  | Some persisted =>
      match filter (fun s => s ∉ savedScopes_of persisted) (this_scopes w) with
      | _ :: _ => (Ok (inr o), log EvStoreClear (set_store None w1))
      | [] =>
          let w2 := set_this_client (Some o)
                      (set_heap (<[o := persisted]> (heap w1)) w1) in
          match isTokenExpiringSoon E persisted w2 with
          | (Ok true, _) =>
              match refresh w2 with
              | (Ok _, w3) =>
                  (Ok match this_client w3 with
                      | Some client => inl client
                      | None => inr o
                      end, w3)
              | (Throw _, w3) =>
                  (Ok (inr o),
                   log EvStoreClear (set_store None (set_this_client None w3)))
              | (OutOfFuel, w3) => (OutOfFuel, w3)
              end
          | _ => (Ok (inl o), w2)
          end
      end
  end.
Proof.
  intros Hcache. unfold cache_unusable in Hcache.
  cbv beta iota zeta delta [cached_or_stored bind gets get_credentials ret
                            new_OAuth2 loadCachedCredentials loadCredentials
                            setCredentials modify isTokenExpiringSoon
                            try_catch clearCredentials].
  destruct (this_client w) as [c|] eqn:Hc; [rewrite Hcache|];
    cbv beta iota; cbn [store set_heap log this_scopes heap];
    (destruct (store w) as [persisted|]; [|reflexivity];
     cbv beta iota; cbn [store set_heap log this_scopes heap];
     destruct (filter _ (this_scopes w)) as [|x xs]; [|reflexivity];
     cbv beta iota; unfold credentials_of;
     cbn [heap set_this_client set_heap log trace];
     rewrite new_client_credentials;
     match goal with
     | |- context [if ?b then _ else _] => destruct b; [|reflexivity]
     end;
     match goal with
     | |- ?L = match refresh ?wb with _ => _ end =>
         match L with
         | context [refresh ?wa] => change wa with wb
         end;
         destruct (refresh wb) as [[[]|e|] w3]
     end; cbv beta iota; try reflexivity;
     destruct (this_client w3); reflexivity).
Qed.

(** With a credential in memory that is about to expire, the call
    refreshes; a failed refresh drops the client and the record, and the call
    goes on as one made with nothing in memory. *)
Lemma cached_or_stored_expiring refresh w c :
  this_client w = Some c ->
  truthy_string (refresh_token (credentials_of w c)) = true ->
  isTokenExpiringSoon E (credentials_of w c) w = (Ok true, w) ->
  cached_or_stored E refresh w =
  match refresh w with
  | (Ok _, w3) =>
      match this_client w3 with
      | Some client => (Ok (inl client), w3)
      | None => cached_or_stored E refresh w3
      end
  | (Throw _, w3) =>
      cached_or_stored E refresh
        (log EvStoreClear (set_store None (set_this_client None w3)))
  | (OutOfFuel, w3) => (OutOfFuel, w3)
  end.
Proof.
  intros Hc Hrt Hexp.
  unfold cached_or_stored at 1.
  cbv beta iota delta [bind gets get_credentials].
  rewrite Hc. cbv beta iota. rewrite Hrt, Hexp. cbv beta iota.
  unfold try_catch.
  destruct (refresh w) as [[[]|e|] w3]; [| |reflexivity].
  - cbv beta iota delta [ret].
    destruct (this_client w3) as [c'|] eqn:Hc3; [reflexivity|].
    unfold cached_or_stored.
    cbv beta iota delta [bind gets get_credentials ret]. now rewrite Hc3.
  - cbv beta iota delta [bind modify clearCredentials ret].
    cbn [this_client log set_store set_this_client].
    unfold cached_or_stored.
    cbv beta iota delta [bind gets get_credentials ret].
    cbn [this_client log set_store set_this_client]. reflexivity.
Qed.

Lemma getAuthenticatedClient_run f w :
  getAuthenticatedClient E (S (S f)) w
  = match cached_or_stored E (refreshToken_try E) w with
    | (Ok (inl client), w1) => (Ok client, w1)
    | (Ok (inr oAuth2Client), w1) => interactive_flow E oAuth2Client w1
    | (Throw e, w1) => (Throw e, w1)
    | (OutOfFuel, w1) => (OutOfFuel, w1)
    end.
Proof.
  rewrite getAuthenticatedClient_fuel.
  unfold getAuthenticatedClient_body, bind.
  destruct (cached_or_stored E (refreshToken_try E) w) as [[[c|o]|e|] w1];
    reflexivity.
Qed.

(** The expiry boundary: a cached credential with a refresh token is
    returned untouched, with no request to the endpoint, when its expiry is
    [NaN], zero, or at least five minutes ahead (exactly five minutes
    counts as not expiring). *)
Theorem cached_credential_at_boundary_returned (f : nat) (w : World)
    (c : ClientRef) (n : number) :
  this_client w = Some c ->
  truthy_string (refresh_token (credentials_of w c)) = true ->
  expiry_date (credentials_of w c) = Some n ->
  n = NaN \/ n = Num 0
  \/ (exists e, n = Num e /\ Date_now E (trace w) + 5 * 60 * 1000 <= e) ->
  getAuthenticatedClient E (S f) w = (Ok c, w).
Proof.
  intros Hc Hrt Hn Hedge. cbn [getAuthenticatedClient].
  apply cached_client_returned; auto.
  destruct (isTokenExpiringSoon_cases (credentials_of w c) w)
    as [((e & He & Hne & Hlt) & _)|(_ & Hfalse)]; [|exact Hfalse].
  exfalso. rewrite Hn in He. injection He as ->.
  destruct Hedge as [H|[H|(e' & H & Hle)]];
    [discriminate|injection H as ->; congruence|injection H as ->; lia].
Qed.

(** A cached credential that expires within five minutes is refreshed
    once: when the endpoint answers and the store takes the write,
    [getAuthenticatedClient] returns the same client, which carries the
    merged credential, the record holds it too, and the call has made one
    request to the endpoint and one write of the store. *)
Theorem expiring_cached_credential_refreshed (f : nat) (w : World)
    (c : ClientRef) (rt : string) (status : Z) (text : string)
    (newTokens : Credentials) :
  this_client w = Some c ->
  refresh_token (credentials_of w c) = Some rt ->
  rt <> "" ->
  expires_within_buffer (Date_now E (trace w)) (credentials_of w c) ->
  fetch E (trace w) (refresh_url E) rt
  = FetchResponse status text (inr newTokens) ->
  response_ok status = true ->
  save_error E (trace w ++ [EvFetch (refresh_url E) rt]) = None ->
  exists w',
    getAuthenticatedClient E (S (S f)) w = (Ok c, w')
    /\ credentials_of w' c = merged_credentials newTokens (credentials_of w c)
    /\ store w' = Some (merged_credentials newTokens (credentials_of w c))
    /\ this_client w' = Some c
    /\ trace w'
       = (trace w
          ++ [EvFetch (refresh_url E) rt;
              EvStoreSave (merged_credentials newTokens (credentials_of w c))])%list.
Proof.
  intros Hc Hrt Hne Hexp Hfetch Hok Hsave.
  pose proof (refresh_token_in_heap w c rt Hrt) as Hheap.
  assert (Htruthy : truthy_string (refresh_token (credentials_of w c)) = true)
    by (rewrite Hrt; destruct rt; [congruence|reflexivity]).
  destruct (isTokenExpiringSoon_cases (credentials_of w c) w)
    as [(_ & Hsoon)|(Hno & _)]; [|contradiction].
  rewrite getAuthenticatedClient_run.
  rewrite (cached_or_stored_expiring _ w c Hc Htruthy Hsoon).
  rewrite (refreshToken_try_cases E w c Hc), Hrt.
  destruct rt as [|a s]; [congruence|]. cbv zeta.
  rewrite Hfetch, Hok. cbn [trace set_heap log]. rewrite Hsave.
  cbn [this_client log set_store set_heap]. rewrite Hc.
  eexists. split; [reflexivity|].
  split; [|split; [reflexivity|split; [exact Hc|]]].
  - unfold credentials_of at 1. cbn [heap log set_store set_heap].
    eapply credentials_of_insert; eauto.
  - cbn [trace log set_store set_heap]. now rewrite <- app_assoc.
Qed.

(** A proactive refresh that fails, for whatever reason, destroys the
    credential: the client is dropped, the record is cleared, and the same
    call goes on to the interactive flow on a new client (the look-up of the
    store finds nothing, so no second refresh is tried). *)
Theorem failed_refresh_clears_and_goes_interactive (f : nat) (w w3 : World)
    (c : ClientRef) (e : Error) :
  this_client w = Some c ->
  truthy_string (refresh_token (credentials_of w c)) = true ->
  expires_within_buffer (Date_now E (trace w)) (credentials_of w c) ->
  refreshToken_try E w = (Throw e, w3) ->
  let w4 :=
    log EvStoreLoad
      (set_heap (heap w3 ++ [no_credentials])
         (log EvStoreClear (set_store None (set_this_client None w3)))) in
  getAuthenticatedClient E (S (S f)) w
  = interactive_flow E (length (heap w3)) w4
  /\ this_client w4 = None
  /\ store w4 = None.
Proof.
  intros Hc Hrt Hexp Hfail w4.
  destruct (isTokenExpiringSoon_cases (credentials_of w c) w)
    as [(_ & Hsoon)|(Hno & _)]; [|contradiction].
  split; [|split; reflexivity].
  rewrite getAuthenticatedClient_run.
  rewrite (cached_or_stored_expiring _ w c Hc Hrt Hsoon), Hfail.
  rewrite cached_or_stored_from_store by exact I.
  reflexivity.
Qed.

(** A persisted credential that covers the requested scopes and is not
    about to expire is adopted without any refresh, whether or not it has a
    refresh token: [getAuthenticatedClient] returns a new client that carries
    it and is now the manager's client; the record is not written. *)
Theorem sufficient_record_adopted (f : nat) (w : World)
    (persisted : Credentials) :
  cache_unusable w ->
  store w = Some persisted ->
  (forall s, s ∈ this_scopes w -> s ∈ savedScopes_of persisted) ->
  ~ expires_within_buffer (Date_now E (trace w ++ [EvStoreLoad])) persisted ->
  exists w',
    getAuthenticatedClient E (S (S f)) w = (Ok (length (heap w)), w')
    /\ credentials_of w' (length (heap w)) = persisted
    /\ this_client w' = Some (length (heap w))
    /\ store w' = Some persisted
    /\ trace w' = (trace w ++ [EvStoreLoad])%list.
Proof.
  intros Hcache Hs Hscopes Hfresh.
  assert (Hfilter : filter (fun s => s ∉ savedScopes_of persisted)
                           (this_scopes w) = []).
  { destruct (filter _ (this_scopes w)) as [|x xs] eqn:Hf; [reflexivity|].
    assert (Hx : x ∈ x :: xs) by apply list_elem_of_here.
    rewrite <- Hf in Hx. apply list_elem_of_filter in Hx as [Hout Hin].
    destruct (Hout (Hscopes x Hin)). }
  rewrite getAuthenticatedClient_run.
  rewrite (cached_or_stored_from_store _ w Hcache), Hs. cbv zeta.
  rewrite Hfilter.
  match goal with
  | |- context [isTokenExpiringSoon E persisted ?w2] =>
      destruct (isTokenExpiringSoon_cases persisted w2)
        as [(Hsoon & _)|(_ & ->)]; [destruct (Hfresh Hsoon)|]
  end.
  eexists. split; [reflexivity|].
  split; [|repeat split; exact Hs].
  unfold credentials_of. cbn [heap log set_this_client set_heap].
  apply new_client_credentials.
Qed.

(** ** What a successful call leaves behind *)

Lemma refreshToken_try_ok w c w3 :
  this_client w = Some c ->
  refreshToken_try E w = (Ok tt, w3) ->
  this_client w3 = Some c /\ store w3 = Some (credentials_of w3 c).
Proof.
  intros Hc Hrun. rewrite (refreshToken_try_cases E w c Hc) in Hrun.
  destruct (refresh_token (credentials_of w c)) as [[|a s]|] eqn:Hrt;
    try discriminate.
  pose proof (refresh_token_in_heap w c _ Hrt) as Hheap.
  cbv zeta in Hrun.
  destruct (fetch E (trace w) (refresh_url E) (String a s))
    as [e|status text json]; [discriminate|].
  destruct (response_ok status); [|discriminate].
  destruct json as [e|newTokens]; [discriminate|].
  destruct (save_error E _); [discriminate|].
  injection Hrun as <-. split; [exact Hc|].
  cbn [store log set_store]. f_equal. symmetry.
  unfold credentials_of at 1. cbn [heap log set_store set_heap].
  eapply credentials_of_insert; eauto.
Qed.

Lemma interactive_flow_ok o w o' w' :
  interactive_flow E o w = (Ok o', w') ->
  o' = o /\ this_client w' = Some o /\ store w' = Some (credentials_of w' o).
Proof.
  unfold interactive_flow, finish_login, bind.
  destruct (start_login E o w) as [[webLogin|e|] w1]; try discriminate.
  destruct (await_login E webLogin w1) as [[[]|e|] w2]; try discriminate.
  cbv beta iota delta [get_credentials gets saveCredentials modify ret].
  destruct (save_error E (trace w2)); [discriminate|].
  intros [= <- <-]. repeat split.
Qed.

(** When [getAuthenticatedClient] succeeds without a usable credential in
    memory, the client it returns is a new object, it is the manager's
    client from then on, and the persisted record is exactly the credential
    that client carries: whichever way the credential came (the store, a
    refresh, or the interactive flow), memory and store agree. *)
Theorem success_leaves_record_in_step (f : nat) (w w' : World) (o : ClientRef) :
  cache_unusable w ->
  getAuthenticatedClient E (S (S f)) w = (Ok o, w') ->
  o = length (heap w)
  /\ this_client w' = Some o
  /\ store w' = Some (credentials_of w' o).
Proof.
  intros Hcache. rewrite getAuthenticatedClient_run.
  rewrite (cached_or_stored_from_store _ w Hcache). cbv zeta.
  destruct (store w) as [persisted|] eqn:Hs.
  2:{ intros H. apply interactive_flow_ok in H as (-> & ? & ?). auto. }
  destruct (filter _ (this_scopes w)) as [|x xs].
  2:{ intros H. apply interactive_flow_ok in H as (-> & ? & ?). auto. }
  match goal with
  | |- context [isTokenExpiringSoon E persisted ?w2] =>
      set (w2' := w2);
      assert (Hcred : credentials_of w2' (length (heap w)) = persisted)
        by (unfold credentials_of; cbn [heap log set_this_client set_heap w2'];
            apply new_client_credentials);
      destruct (isTokenExpiringSoon_cases persisted w2') as [(_ & ->)|(_ & ->)]
  end.
  - destruct (refreshToken_try E w2') as [[[]|e|] w3] eqn:Hrefresh.
    + destruct (refreshToken_try_ok w2' (length (heap w)) w3 eq_refl Hrefresh)
        as (Hc3 & Hs3).
      rewrite Hc3. intros [= <- <-]. auto.
    + intros H. apply interactive_flow_ok in H as (-> & ? & ?). auto.
    + discriminate.
  - intros [= <- <-]. repeat split. cbn [store w2' set_this_client set_heap log].
    now rewrite Hs, Hcred.
Qed.

Lemma new_manager_success (f : nat) (w w' : World) (o : ClientRef) :
  this_client w = None ->
  getAuthenticatedClient E (S (S f)) w = (Ok o, w') ->
  this_client w' = Some o /\ store w' = Some (credentials_of w' o).
Proof.
  intros Hc. rewrite getAuthenticatedClient_run.
  rewrite cached_or_stored_from_store by (unfold cache_unusable; now rewrite Hc).
  cbv zeta.
  assert (Hflow : forall o1 w1, interactive_flow E o1 w1 = (Ok o, w') ->
                    this_client w' = Some o
                    /\ store w' = Some (credentials_of w' o)).
  { intros o1 w1 H. apply interactive_flow_ok in H as (-> & ? & ?). auto. }
  destruct (store w) as [persisted|] eqn:Hs; [|apply Hflow].
  destruct (filter _ (this_scopes w)) as [|x xs]; [|apply Hflow].
  match goal with
  | |- context [isTokenExpiringSoon E persisted ?w2] =>
      set (adopted := w2);
      destruct (isTokenExpiringSoon_cases persisted adopted)
        as [(_ & ->)|(_ & ->)];
      [destruct (refreshToken_try E adopted) as [[[]|e|] w3] eqn:Hrefresh|]
  end.
  - destruct (refreshToken_try_ok adopted (length (heap w)) w3 eq_refl Hrefresh)
      as (Hc3 & Hs3).
    rewrite Hc3. intros [= <- <-]. auto.
  - apply Hflow.
  - discriminate.
  - intros [= <- <-]. split; [reflexivity|].
    cbn [store adopted set_this_client set_heap log]. rewrite Hs. f_equal.
    symmetry. unfold credentials_of.
    cbn [heap adopted log set_this_client set_heap].
    apply new_client_credentials.
Qed.


(** ** Refresh, sign-out and the ['tokens'] handler *)

(** Every failure of [refreshToken] with a client in memory leaves the
    persisted record and [this.client] as they were.  The credentials of the
    client are as they were too, with one exception: when the failure is the
    write of the store, the client already carries the merged credential. *)
Theorem refresh_failure_keeps_record (f : nat) (w w' : World) (c : ClientRef)
    (e : Error) :
  this_client w = Some c ->
  refreshToken E (S f) w = (Throw e, w') ->
  store w' = store w
  /\ this_client w' = Some c
  /\ (heap w' = heap w
      \/ exists newTokens,
           save_error E (trace w') = Some e
           /\ heap w'
              = <[c := merged_credentials newTokens (credentials_of w c)]>
                  (heap w)).
Proof.
  intros Hc. rewrite (refreshToken_with_client E f w c Hc).
  rewrite (refreshToken_try_cases E w c Hc).
  destruct (refresh_token (credentials_of w c)) as [[|a s]|];
    try (intros [= <- <-]; auto).
  cbv zeta.
  destruct (fetch E (trace w) (refresh_url E) (String a s))
    as [e0|status text json]; [intros [= <- <-]; auto|].
  destruct (response_ok status); [|intros [= <- <-]; auto].
  destruct json as [e0|newTokens]; [intros [= <- <-]; auto|].
  destruct (save_error E _) as [e0|] eqn:Hsave; [|discriminate].
  intros [= <- <-]. split; [reflexivity|]. split; [exact Hc|].
  right. exists newTokens. split; [exact Hsave|reflexivity].
Qed.

(** The handler of the ['tokens'] event never throws and never touches the
    manager or its client objects.  It persists the tokens of the event with
    the refresh token of the event or, when the event has none, the one of
    the record it finds; if the write fails the record stays as it was. *)
Theorem on_tokens_persists_merge (tokens : Credentials) (w : World) :
  exists w',
    on_tokens E tokens w = (Ok tt, w')
    /\ this_client w' = this_client w
    /\ heap w' = heap w
    /\ match save_error E (trace w ++ [EvStoreLoad]) with
       | None =>
           store w'
           = Some (mkCredentials
                     (access_token tokens)
                     (or_string (refresh_token tokens)
                        (refresh_token (default no_credentials (store w))))
                     (scope tokens) (token_type tokens) (expiry_date tokens))
       | Some _ => store w' = store w
       end.
Proof.
  cbv beta iota zeta delta [on_tokens try_catch bind loadCredentials
                            saveCredentials ret].
  cbn [trace log store].
  destruct (save_error E (trace w ++ [EvStoreLoad]));
    eexists; repeat split.
Qed.

(** [clearAuth] drops the manager's reference and the record, not the
    credentials themselves: every client object handed out before still
    carries its tokens.  The URL file is gone afterwards unless [unlinkSync]
    fails on it, and the call logs exactly one clear of the store. *)
Theorem clearAuth_keeps_client_objects (w : World) :
  exists w',
    clearAuth E w = (Ok tt, w')
    /\ heap w' = heap w
    /\ (forall client, credentials_of w' client = credentials_of w client)
    /\ count_events store_write (drop (length (trace w)) (trace w')) = 1%nat
    /\ (auth_url_file w' = None
        \/ (unlinkSync_error E (trace w ++ [EvStoreClear]) <> None
            /\ auth_url_file w' = auth_url_file w)).
Proof.
  cbv beta iota delta [clearAuth bind modify clearCredentials try_catch
                       unlinkSync ret].
  cbn [auth_url_file trace log set_store set_this_client].
  destruct (auth_url_file w) as [contents|] eqn:Hfile;
    [destruct (unlinkSync_error E (trace w ++ [EvStoreClear])) eqn:Hunlink|];
    eexists; (split; [reflexivity|]);
    cbn [heap trace auth_url_file log set_store set_this_client
         set_auth_url_file];
    (split; [reflexivity|split; [reflexivity|split]]);
    try (rewrite ?drop_app_length; reflexivity);
    try (rewrite <- app_assoc, drop_app_length; reflexivity);
    auto.
Qed.

(** ** The interactive flow *)

Lemma getAvailablePort_world w : snd (getAvailablePort E w) = w.
Proof.
  unfold getAvailablePort.
  destruct (OAUTH_CALLBACK_PORT E) as [[|a s]|]; cbn;
    try (destruct (probe_port E (trace w)); reflexivity).
  destruct (port_out_of_range _); reflexivity.
Qed.


Lemma requestListener_accepts l url qs w :
  String.prefix "/oauth2callback" url = true ->
  searchParams E url (listener_base l) = inr qs ->
  csrfValid E (l_csrfToken l) (assoc "state" qs) = true ->
  truthy_string (assoc "error" qs) = false ->
  truthy_string (assoc "access_token" qs) = true ->
  truthy_string (assoc "expiry_date" qs) = true ->
  requestListener E l (Some url) w
  = (callback_accepted l,
     set_heap (<[l_client l := callback_tokens qs]> (heap w)) w).
Proof.
  intros Hpath Hqs Hv Herr Hat Hed.
  destruct url as [|c u]; [discriminate|].
  unfold requestListener, handle_callback. fold (listener_base l).
  rewrite Hpath. cbn [negb]. rewrite Hqs. cbv zeta. rewrite Hv.
  cbn [negb]. unfold callback_accepted, callback_tokens.
  destruct (assoc "error" qs) as [[|c' e']|]; try discriminate;
    (destruct (assoc "access_token" qs) as [[|ca ra]|]; try discriminate;
     destruct (assoc "expiry_date" qs) as [[|ce re]|]; try discriminate;
     reflexivity).
Qed.



(** ** The scope check *)

Lemma split_no_space x : no_space x = true -> split " " x = [x].
Proof.
  induction x as [|c r IH]; [reflexivity|].
  cbn [no_space split]. intros H. apply andb_true_iff in H as [Hc Hr].
  apply negb_true_iff in Hc. rewrite Hc, (IH Hr). reflexivity.
Qed.

Lemma split_app_no_space x r :
  no_space x = true -> split " " (x +:+ String " " r) = x :: split " " r.
Proof.
  induction x as [|c x IH]; [reflexivity|].
  cbn [no_space]. intros H. apply andb_true_iff in H as [Hc Hx].
  apply negb_true_iff in Hc.
  change (String c x +:+ String " " r) with (String c (x +:+ String " " r)).
  cbn [split]. rewrite Hc, (IH Hx). reflexivity.
Qed.

Lemma split_concat granted :
  granted <> [] ->
  Forall (fun s => no_space s = true) granted ->
  split " " (String.concat " " granted) = granted.
Proof.
  induction granted as [|x [|y rest] IH]; intros Hne Hall; [congruence| |].
  - cbn [String.concat]. f_equal.
    apply split_no_space. now apply Forall_cons_1 in Hall as [? _].
  - apply Forall_cons_1 in Hall as [Hx Hrest].
    change (String.concat " " (x :: y :: rest))
      with (x +:+ String " " (String.concat " " (y :: rest))).
    rewrite (split_app_no_space _ _ Hx), IH; [reflexivity|discriminate|exact Hrest].
Qed.

(** The scope check reads the scope string as the space-joined list it is
    granted as: for a credential whose scope is a non-empty list of scopes
    without spaces joined by single spaces, the saved scopes are exactly that
    list, so the check passes exactly when every requested scope is in it.
    A credential with no scope at all has no saved scope. *)
Theorem granted_scopes_recognised (persisted : Credentials)
    (granted requested : list string) :
  (scope persisted = Some (String.concat " " granted) ->
   granted <> [] ->
   Forall (fun s => no_space s = true) granted ->
   (forall s, s ∈ savedScopes_of persisted <-> s ∈ granted)
   /\ (filter (fun s => s ∉ savedScopes_of persisted) requested = []
       <-> forall s, s ∈ requested -> s ∈ granted))
  /\ (scope persisted = None ->
      forall s, s ∉ savedScopes_of persisted).
Proof.
  split.
  - intros Hscope Hne Hall.
    assert (Hsaved : forall s, s ∈ savedScopes_of persisted <-> s ∈ granted).
    { intros s. unfold savedScopes_of. rewrite Hscope.
      rewrite (split_concat granted Hne Hall). apply elem_of_list_to_set. }
    split; [exact Hsaved|]. split.
    + intros Hnil s Hin. apply Hsaved.
      destruct (decide (s ∈ savedScopes_of persisted)) as [|Hout]; [assumption|].
      exfalso. apply (not_elem_of_nil s). rewrite <- Hnil.
      apply list_elem_of_filter. auto.
    + intros Hsub.
      destruct (filter _ requested) as [|x xs] eqn:Hf; [reflexivity|].
      assert (Hx : x ∈ x :: xs) by apply list_elem_of_here.
      rewrite <- Hf in Hx. apply list_elem_of_filter in Hx as [Hout Hin].
      destruct Hout. apply Hsaved, Hsub, Hin.
  - intros Hscope s. unfold savedScopes_of. rewrite Hscope.
    cbn. apply not_elem_of_empty.
Qed.

(** ** Requests to the refresh endpoint *)

Lemma count_events_app P t1 t2 :
  count_events P (t1 ++ t2) = (count_events P t1 + count_events P t2)%nat.
Proof. unfold count_events. now rewrite List.filter_app, length_app. Qed.

Lemma count_events_none P t : existsb P t = false -> count_events P t = 0%nat.
Proof.
  unfold count_events. induction t as [|e t IH]; [reflexivity|].
  cbn. destruct (P e); [discriminate|]. exact IH.
Qed.

Lemma silent_ret {A} P (a : A) : silent P (ret a).
Proof. intros w r w' [= <- <-]. exists []. now rewrite app_nil_r. Qed.

Lemma silent_gets {A} P (f : World -> A) : silent P (gets f).
Proof. intros w r w' [= <- <-]. exists []. now rewrite app_nil_r. Qed.

Lemma silent_log P ev : P ev = false -> silent P (modify (log ev)).
Proof.
  intros Hev w r w' [= <- <-]. exists [ev]. cbn. now rewrite Hev.
Qed.

Lemma silent_set_this_client P c : silent P (modify (set_this_client c)).
Proof. intros w r w' [= <- <-]. exists []. now rewrite app_nil_r. Qed.

Lemma silent_bind {A B} P (m : M A) (k : A -> M B) :
  silent P m -> (forall a, silent P (k a)) -> silent P (bind m k).
Proof.
  intros Hm Hk w r w' Hrun. unfold bind in Hrun.
  destruct (m w) as [[a|e|] w1] eqn:Hmw;
    try (injection Hrun as <- <-; now apply (Hm _ _ _ Hmw)).
  destruct (Hm _ _ _ Hmw) as (t1 & Ht1 & Hq1).
  destruct (Hk a _ _ _ Hrun) as (t2 & Ht2 & Hq2).
  exists (t1 ++ t2)%list. rewrite Ht2, Ht1, <- app_assoc. split; [reflexivity|].
  rewrite existsb_app, Hq1, Hq2. reflexivity.
Qed.

Lemma silent_try_catch {A} P (m : M A) (h : Error -> M A) :
  silent P m -> (forall e, silent P (h e)) -> silent P (try_catch m h).
Proof.
  intros Hm Hh w r w' Hrun. unfold try_catch in Hrun.
  destruct (m w) as [[a|e|] w1] eqn:Hmw;
    try (injection Hrun as <- <-; now apply (Hm _ _ _ Hmw)).
  destruct (Hm _ _ _ Hmw) as (t1 & Ht1 & Hq1).
  destruct (Hh e _ _ _ Hrun) as (t2 & Ht2 & Hq2).
  exists (t1 ++ t2)%list. rewrite Ht2, Ht1, <- app_assoc. split; [reflexivity|].
  rewrite existsb_app, Hq1, Hq2. reflexivity.
Qed.

Ltac silent_prim :=
  let w := fresh "w" in
  let r := fresh "r" in
  let w' := fresh "w" in
  let H := fresh "H" in
  intros w r w' H;
  repeat match type of H with
         | context [match ?x with _ => _ end] => destruct x
         end;
  injection H as <- <-;
  first [ exists []; split; [now rewrite app_nil_r|reflexivity]
        | eexists [_]; split; reflexivity ].

Lemma silent_fetch_writeFileSync path contents :
  silent is_fetch (writeFileSync E path contents).
Proof. unfold writeFileSync. silent_prim. Qed.

Lemma silent_fetch_open url : silent is_fetch (open E url).
Proof. unfold open. silent_prim. Qed.

Lemma silent_fetch_getAvailablePort : silent is_fetch (getAvailablePort E).
Proof.
  unfold getAvailablePort.
  destruct (OAUTH_CALLBACK_PORT E) as [[|a s]|]; silent_prim.
Qed.

Lemma silent_fetch_saveCredentials c : silent is_fetch (saveCredentials E c).
Proof. unfold saveCredentials. silent_prim. Qed.

Lemma deliver_all_trace events l w :
  trace (snd (deliver_all E events (l, w))) = trace w.
Proof.
  revert l w. induction events as [|i events IH]; intros l w; [reflexivity|].
  cbn [deliver_all fold_left].
  fold (deliver_all E events (deliver E (l, w) i)).
  destruct (deliver E (l, w) i) as [l1 w1] eqn:Hstep. rewrite IH.
  destruct i as [req_url|err]; cbn [deliver fst snd] in Hstep.
  - destruct (closed l); [now injection Hstep as <- <-|].
    destruct (requestListener_frame l req_url w) as (_ & _ & _ & _ & Ht & _).
    rewrite Hstep in Ht. exact Ht.
  - now injection Hstep as <- <-.
Qed.

Lemma silent_fetch_await_login webLogin : silent is_fetch (await_login E webLogin).
Proof.
  intros w r w' Hrun. unfold await_login in Hrun.
  destruct (deliver_all E _ _) as [l w1] eqn:Hd.
  assert (Ht : trace w1 = (trace w ++ [EvAwaitLogin])%list).
  { pose proof (deliver_all_trace
                  (inbound E (trace (log EvAwaitLogin w)))
                  (loginCompletePromise webLogin) (log EvAwaitLogin w)) as H.
    rewrite Hd in H. exact H. }
  exists [EvAwaitLogin].
  destruct (completion l); injection Hrun as <- <-; auto.
Qed.

Ltac silent_step :=
  first
    [ match goal with
      | |- silent _ (bind _ _) => apply silent_bind; [|intros ?]
      | |- silent _ (try_catch _ _) => apply silent_try_catch; [|intros ?]
      | |- silent _ (modify (log _)) => apply silent_log; reflexivity
      | |- silent _ (match ?x with _ => _ end) => destruct x
      | |- silent _ (let _ := _ in _) => cbv zeta
      end
    | apply silent_ret | apply silent_gets | apply silent_set_this_client
    | apply silent_fetch_writeFileSync | apply silent_fetch_open
    | apply silent_fetch_getAvailablePort | apply silent_fetch_saveCredentials
    | apply silent_fetch_await_login ].

Lemma silent_fetch_interactive_flow client :
  silent is_fetch (interactive_flow E client).
Proof.
  unfold interactive_flow, start_login, finish_login, authWithWeb,
    get_credentials.
  repeat silent_step.
Qed.

Lemma refreshToken_try_trace w c r w3 :
  this_client w = Some c ->
  refreshToken_try E w = (r, w3) ->
  exists t, trace w3 = (trace w ++ t)%list
            /\ (count_events is_fetch t <= 1)%nat.
Proof.
  intros Hc. rewrite (refreshToken_try_cases E w c Hc).
  destruct (refresh_token (credentials_of w c)) as [[|a s]|];
    try (intros [= <- <-]; exists []; split;
         [now rewrite app_nil_r|cbn; lia]).
  cbv zeta.
  destruct (fetch E (trace w) (refresh_url E) (String a s))
    as [e|status text json];
    [intros [= <- <-]; eexists [_]; split; [reflexivity|cbn; lia]|].
  destruct (response_ok status);
    [|intros [= <- <-]; eexists [_]; split; [reflexivity|cbn; lia]].
  destruct json as [e|newTokens];
    [intros [= <- <-]; eexists [_]; split; [reflexivity|cbn; lia]|].
  destruct (save_error E _);
    intros [= <- <-].
  - eexists [_]. split; [reflexivity|cbn; lia].
  - eexists [_; _]. cbn [trace log set_store set_heap].
    rewrite <- app_assoc. split; [reflexivity|cbn; lia].
Qed.

Lemma from_store_bound w r w1 :
  cache_unusable w ->
  cached_or_stored E (refreshToken_try E) w = (r, w1) ->
  exists t, trace w1 = (trace w ++ t)%list
            /\ (count_events is_fetch t <= 1)%nat
            /\ (store w = None -> count_events is_fetch t = 0%nat).
Proof.
  intros Hcache. rewrite (cached_or_stored_from_store _ w Hcache). cbv zeta.
  destruct (store w) as [persisted|] eqn:Hs.
  2:{ intros [= <- <-]. exists [EvStoreLoad]. repeat split; cbn; lia. }
  destruct (filter _ (this_scopes w)) as [|x xs].
  2:{ intros [= <- <-]. exists [EvStoreLoad; EvStoreClear].
      cbn [trace log set_store set_heap]. rewrite <- app_assoc.
      split; [reflexivity|]. split; [cbn; lia|discriminate]. }
  match goal with
  | |- context [isTokenExpiringSoon E persisted ?w2] =>
      set (w2' := w2);
      destruct (isTokenExpiringSoon_cases persisted w2') as [(_ & ->)|(_ & ->)]
  end.
  2:{ intros [= <- <-]. exists [EvStoreLoad].
      split; [reflexivity|]. split; [cbn; lia|discriminate]. }
  destruct (refreshToken_try E w2') as [[[]|e|] w3] eqn:Hrefresh;
    destruct (refreshToken_try_trace w2' (length (heap w)) _ w3 eq_refl Hrefresh)
      as (t & Ht & Hcount);
    intros [= <- <-].
  - exists (EvStoreLoad :: t). rewrite Ht. cbn [trace w2' set_this_client set_heap log].
    rewrite <- app_assoc. split; [reflexivity|].
    split; [exact Hcount|discriminate].
  - exists (EvStoreLoad :: t ++ [EvStoreClear])%list.
    cbn [trace log set_store set_this_client]. rewrite Ht.
    cbn [trace w2' set_this_client set_heap log].
    rewrite <- !app_assoc. split; [reflexivity|].
    change (EvStoreLoad :: t ++ [EvStoreClear])%list
      with ([EvStoreLoad] ++ t ++ [EvStoreClear])%list.
    rewrite !count_events_app. split; [cbn; lia|discriminate].
  - exists (EvStoreLoad :: t). rewrite Ht. cbn [trace w2' set_this_client set_heap log].
    rewrite <- app_assoc. split; [reflexivity|].
    split; [exact Hcount|discriminate].
Qed.

Lemma cached_or_stored_bound w r w1 :
  cached_or_stored E (refreshToken_try E) w = (r, w1) ->
  exists t, trace w1 = (trace w ++ t)%list
            /\ (count_events is_fetch t <= 1)%nat.
Proof.
  destruct (this_client w) as [c|] eqn:Hc.
  2:{ intros Hrun.
      destruct (from_store_bound w r w1) as (t & ? & ? & _); eauto.
      unfold cache_unusable. now rewrite Hc. }
  destruct (truthy_string (refresh_token (credentials_of w c))) eqn:Hrt.
  2:{ intros Hrun.
      destruct (from_store_bound w r w1) as (t & ? & ? & _); eauto.
      unfold cache_unusable. now rewrite Hc. }
  destruct (isTokenExpiringSoon_cases (credentials_of w c) w)
    as [(_ & Hsoon)|(_ & Hfresh)].
  - rewrite (cached_or_stored_expiring _ w c Hc Hrt Hsoon).
    destruct (refreshToken_try E w) as [[[]|e|] w3] eqn:Hrefresh;
      destruct (refreshToken_try_trace w c _ w3 Hc Hrefresh)
        as (t1 & Ht1 & Hcount1).
    + destruct (refreshToken_try_ok w c w3 Hc Hrefresh) as (-> & _).
      intros [= <- <-]. eauto.
    + intros Hrun.
      destruct (from_store_bound
                  (log EvStoreClear (set_store None (set_this_client None w3)))
                  r w1 I Hrun) as (t2 & Ht2 & _ & Hzero).
      exists (t1 ++ [EvStoreClear] ++ t2)%list.
      rewrite Ht2. cbn [trace log set_store set_this_client].
      rewrite Ht1, <- !app_assoc. split; [reflexivity|].
      rewrite !count_events_app, (Hzero eq_refl). cbn. lia.
    + intros [= <- <-]. eauto.
  - intros Hrun. exists [].
    assert (Hret : cached_or_stored E (refreshToken_try E) w = (Ok (inl c), w)).
    { unfold cached_or_stored.
      cbv beta iota delta [bind gets get_credentials ret].
      rewrite Hc. cbv beta iota. rewrite Hrt, Hfresh. cbv beta iota.
      now rewrite Hc. }
    rewrite Hret in Hrun. injection Hrun as <- <-.
    split; [now rewrite app_nil_r|cbn; lia].
Qed.

(** One call of [getAuthenticatedClient] sends at most one request to the
    refresh endpoint, whatever the world and the environment: after a failed
    refresh of the cached credential the record has been cleared, so the
    look-up of the store that follows has nothing to refresh, and the
    interactive flow never contacts the endpoint. *)
Theorem at_most_one_refresh_request (f : nat) (w w' : World)
    (r : Result ClientRef) :
  getAuthenticatedClient E (S (S f)) w = (r, w') ->
  exists t,
    trace w' = (trace w ++ t)%list
    /\ (count_events is_fetch t <= 1)%nat.
Proof.
  rewrite getAuthenticatedClient_run.
  destruct (cached_or_stored E (refreshToken_try E) w) as [[[c|o]|e|] w1] eqn:Hpre;
    destruct (cached_or_stored_bound w _ w1 Hpre) as (t1 & Ht1 & Hcount1);
    try (intros [= <- <-]; eauto).
  intros Hflow.
  destruct (silent_fetch_interactive_flow o _ _ _ Hflow) as (t2 & Ht2 & Hq2).
  exists (t1 ++ t2)%list. rewrite Ht2, Ht1, <- app_assoc. split; [reflexivity|].
  rewrite count_events_app, (count_events_none _ _ Hq2). lia.
Qed.

Lemma refreshToken_try_success w c rt status text newTokens :
  this_client w = Some c ->
  refresh_token (credentials_of w c) = Some rt ->
  rt <> "" ->
  fetch E (trace w) (refresh_url E) rt
  = FetchResponse status text (inr newTokens) ->
  response_ok status = true ->
  save_error E (trace w ++ [EvFetch (refresh_url E) rt]) = None ->
  let merged := merged_credentials newTokens (credentials_of w c) in
  refreshToken_try E w
  = (Ok tt,
     log (EvStoreSave merged)
       (set_store (Some merged)
          (set_heap (<[c := merged]> (heap w))
             (log (EvFetch (refresh_url E) rt) w)))).
Proof.
  intros Hc Hrt Hne Hfetch Hok Hsave merged.
  rewrite (refreshToken_try_cases E w c Hc), Hrt.
  destruct rt as [|a s]; [congruence|]. cbv zeta.
  rewrite Hfetch, Hok. cbn [trace set_heap log]. now rewrite Hsave.
Qed.

(** [refreshToken] on a manager with no client and a persisted credential
    that is about to expire refreshes twice: [getAuthenticatedClient], which
    it runs first, adopts the record and refreshes it, and the [try] block
    then refreshes again with the same refresh token.  The second answer
    overwrites the first, in memory and in the store. *)
Theorem refresh_without_client_refreshes_twice (f : nat) (w : World)
    (persisted : Credentials) (rt : string)
    (status1 status2 : Z) (text1 text2 : string)
    (answer1 answer2 : Credentials) :
  this_client w = None ->
  store w = Some persisted ->
  (forall s, s ∈ this_scopes w -> s ∈ savedScopes_of persisted) ->
  refresh_token persisted = Some rt ->
  rt <> "" ->
  expires_within_buffer (Date_now E (trace w ++ [EvStoreLoad])) persisted ->
  let first := merged_credentials answer1 persisted in
  let second := merged_credentials answer2 first in
  let t1 := (trace w ++ [EvStoreLoad])%list in
  let t2 := (t1 ++ [EvFetch (refresh_url E) rt; EvStoreSave first])%list in
  fetch E t1 (refresh_url E) rt = FetchResponse status1 text1 (inr answer1) ->
  response_ok status1 = true ->
  save_error E (t1 ++ [EvFetch (refresh_url E) rt]) = None ->
  fetch E t2 (refresh_url E) rt = FetchResponse status2 text2 (inr answer2) ->
  response_ok status2 = true ->
  save_error E (t2 ++ [EvFetch (refresh_url E) rt]) = None ->
  exists w',
    refreshToken E (S (S (S f))) w = (Ok tt, w')
    /\ trace w'
       = (t2 ++ [EvFetch (refresh_url E) rt; EvStoreSave second])%list
    /\ store w' = Some second
    /\ credentials_of w' (length (heap w)) = second
    /\ this_client w' = Some (length (heap w)).
Proof.
  intros Hc Hs Hscopes Hrt Hne Hsoon first second t1 t2
         Hfetch1 Hok1 Hsave1 Hfetch2 Hok2 Hsave2.
  assert (Hfilter : filter (fun s => s ∉ savedScopes_of persisted)
                           (this_scopes w) = []).
  { destruct (filter _ (this_scopes w)) as [|x xs] eqn:Hf; [reflexivity|].
    assert (Hx : x ∈ x :: xs) by apply list_elem_of_here.
    rewrite <- Hf in Hx. apply list_elem_of_filter in Hx as [Hout Hin].
    destruct (Hout (Hscopes x Hin)). }
  set (o := length (heap w)).
  set (w2 := set_this_client (Some o)
               (set_heap (<[o := persisted]> (heap w ++ [no_credentials])%list)
                  (log EvStoreLoad
                     (set_heap (heap w ++ [no_credentials])%list w)))).
  assert (Hcred2 : credentials_of w2 o = persisted)
    by (unfold credentials_of, w2; cbn [heap set_this_client set_heap log];
        apply new_client_credentials).
  assert (Hrt2 : refresh_token (credentials_of w2 o) = Some rt)
    by now rewrite Hcred2.
  pose proof (refreshToken_try_success w2 o rt status1 text1 answer1
                eq_refl Hrt2 Hne Hfetch1 Hok1 Hsave1) as Hfirst.
  rewrite Hcred2 in Hfirst. fold first in Hfirst. cbv zeta in Hfirst.
  set (w3 := log (EvStoreSave first)
               (set_store (Some first)
                  (set_heap (<[o := first]> (heap w2))
                     (log (EvFetch (refresh_url E) rt) w2)))) in *.
  assert (Hcred3 : credentials_of w3 o = first).
  { unfold credentials_of, w3. cbn [heap set_store set_heap log].
    eapply credentials_of_insert. now apply refresh_token_in_heap with (rt := rt). }
  assert (Hgac : getAuthenticatedClient E (S (S f)) w = (Ok o, w3)).
  { rewrite getAuthenticatedClient_run.
    rewrite cached_or_stored_from_store
      by (unfold cache_unusable; now rewrite Hc).
    rewrite Hs. cbv zeta. rewrite Hfilter.
    match goal with
    | |- context [isTokenExpiringSoon E persisted ?wx] => change wx with w2
    end.
    destruct (isTokenExpiringSoon_cases persisted w2) as [(_ & ->)|(Hno & _)];
      [|destruct (Hno Hsoon)].
    rewrite Hfirst. reflexivity. }
  cbn [refreshToken].
  cbv beta iota delta [refreshToken_body bind gets modify]. rewrite Hc.
  cbv beta iota. rewrite Hgac. cbv beta iota.
  assert (Hrt3 : refresh_token (credentials_of (set_this_client (Some o) w3) o)
                 = Some rt)
    by (change (credentials_of (set_this_client (Some o) w3) o)
          with (credentials_of w3 o); now rewrite Hcred3).
  pose proof (refreshToken_try_success (set_this_client (Some o) w3) o rt
                status2 text2 answer2 eq_refl Hrt3 Hne) as Hsecond.
  change (credentials_of (set_this_client (Some o) w3) o)
    with (credentials_of w3 o) in Hsecond.
  rewrite Hcred3 in Hsecond. fold second in Hsecond.
  assert (Htrace3 : trace (set_this_client (Some o) w3) = t2).
  { unfold w3, w2, t2, t1. cbn [trace set_this_client set_store set_heap log].
    now rewrite <- !app_assoc. }
  rewrite Htrace3 in Hsecond.
  specialize (Hsecond Hfetch2 Hok2 Hsave2). cbv zeta in Hsecond.
  eexists. split; [exact Hsecond|].
  cbn [trace store this_client log set_store set_heap].
  rewrite Htrace3. split; [now rewrite <- app_assoc|].
  split; [reflexivity|]. split; [|reflexivity].
  unfold credentials_of. cbn [heap log set_store set_heap set_this_client].
  eapply credentials_of_insert.
  change (heap (set_this_client (Some o) w3)) with (heap w3).
  apply refresh_token_in_heap with (rt := rt). now rewrite Hcred3.
Qed.

End Further.

(** * The properties on concrete runs *)

Module Run.
Import Scenario.

(** The specification's first scenario: empty store, a callback with the
    right state; the credential is returned, cached and persisted. *)
Example fresh_install_signs_in :
  let E := env now offline [InRequest (Some good_callback)] in
  let run := getAuthenticatedClient E 2 fresh_install in
  fst run = Ok 0%nat
  /\ access_token (credentials_of (snd run) 0%nat) = Some "AT1"
  /\ store (snd run) = Some (credentials_of (snd run) 0%nat)
  /\ this_client (snd run) = Some 0%nat.
Proof. vm_compute. repeat split. Qed.

(** The state may also be the base64 JSON wrapper. *)
Example wrapped_state_accepted :
  fst (getAuthenticatedClient
         (env now offline [InRequest (Some wrapped_callback)]) 2 fresh_install)
  = Ok 0%nat.
Proof. vm_compute. reflexivity. Qed.

(** The specification's second scenario: a persisted credential that has
    expired is refreshed; the refresh token is the original one. *)
Example expired_record_refreshed :
  let E := env now rotating [] in
  let w := manager ["read"] None
             (Some (credential "AT0" (Some "OLD") (Some (Num (now - 1000))))) in
  let run := getAuthenticatedClient E 2 w in
  fst run = Ok 0%nat
  /\ access_token (credentials_of (snd run) 0%nat) = Some "AT2"
  /\ refresh_token (credentials_of (snd run) 0%nat) = Some "OLD".
Proof. vm_compute. repeat split. Qed.

(** A second request finds the server closed: the forged request rejects
    the flow and the good one after it is not handled. *)
Example second_request_not_handled :
  let E := env now offline
             [InRequest (Some forged_callback); InRequest (Some good_callback)] in
  let run := getAuthenticatedClient E 2 fresh_install in
  fst run = Throw csrf_error
  /\ credentials_of (snd run) 0%nat = no_credentials
  /\ store (snd run) = None.
Proof. vm_compute. repeat split. Qed.

(** The handler on each kind of request: the outcome differs, the server
    is closed every time. *)
Example handler_outcomes :
  let run url := fst (requestListener quiet_env listener url waiting) in
  (completion (run (Some "/favicon.ico")), closed (run (Some "/favicon.ico")))
  = (Rejected (JsError
       "OAuth callback not received. Unexpected request: /favicon.ico"), true)
  /\ (completion (run None), closed (run None))
     = (Rejected (JsError
          "OAuth callback not received. Unexpected request: undefined"), true)
  /\ (completion (run (Some "/oauth2callback")),
      closed (run (Some "/oauth2callback")))
     = (Rejected csrf_error, true)
  /\ (completion (run (Some forged_callback)),
      closed (run (Some forged_callback)))
     = (Rejected csrf_error, true)
  /\ (completion (run (Some "/oauth2callback?state=c0ffee&error=access_denied")),
      closed (run (Some "/oauth2callback?state=c0ffee&error=access_denied")))
     = (Rejected (JsError "Google OAuth error: access_denied. "), true)
  /\ (completion (run (Some "/oauth2callback?state=c0ffee&access_token=AT1")),
      closed (run (Some "/oauth2callback?state=c0ffee&access_token=AT1")))
     = (Rejected (JsError
          "Authentication failed: Did not receive tokens from callback."), true)
  /\ (completion (run (Some good_callback)), closed (run (Some good_callback)))
     = (Resolved, true).
Proof. vm_compute. repeat split. Qed.


(** C5 as stated fails: no callback request arrives, the server raises an
    error, and the call throws that error, which is not the timeout error
    and does not carry the authorization URL. *)
Lemma listener_error_preempts_timeout :
  (forall t i, i ∈ inbound port_in_use t -> forall url, i <> InRequest url)
  /\ fst (getAuthenticatedClient port_in_use 2 fresh_install)
     = Throw (JsError "OAuth callback server error: Error: listen EADDRINUSE")
  /\ forall webLogin,
       fst (getAuthenticatedClient port_in_use 2 fresh_install)
       <> Throw (timeout_error webLogin).
Proof.
  split; [|split].
  - intros t i Hi url. cbn in Hi. apply list_elem_of_singleton in Hi.
    subst i. discriminate.
  - vm_compute. reflexivity.
  - intros webLogin. vm_compute. discriminate.
Qed.

(** ** The theorems at concrete inputs *)

Lemma fresh_cached_credential_returned_witness :
  this_client (signed_in (Some (Num (now + hour)))) = Some 0%nat
  /\ truthy_string
       (refresh_token
          (credentials_of (signed_in (Some (Num (now + hour)))) 0%nat)) = true
  /\ Date_now quiet_env (trace (signed_in (Some (Num (now + hour)))))
     + 5 * 60 * 1000 < now + hour
  /\ getAuthenticatedClient quiet_env 2 (signed_in (Some (Num (now + hour))))
     = (Ok 0%nat, signed_in (Some (Num (now + hour)))).
Proof.
  split; [reflexivity|]. split; [reflexivity|]. split; [reflexivity|].
  apply (fresh_cached_credential_returned quiet_env 1
           (signed_in (Some (Num (now + hour)))) 0%nat (now + hour));
    reflexivity.
Defined.

Lemma cached_credential_without_expiry_returned_witness :
  this_client (signed_in None) = Some 0%nat
  /\ expiry_date (credentials_of (signed_in None) 0%nat) = None
  /\ getAuthenticatedClient quiet_env 2 (signed_in None)
     = (Ok 0%nat, signed_in None).
Proof.
  split; [reflexivity|]. split; [reflexivity|].
  apply (cached_credential_without_expiry_returned quiet_env 1
           (signed_in None) 0%nat);
    reflexivity.
Defined.


Lemma forged_state_carries_no_csrf :
  ~ state_carries_csrf quiet_env (l_csrfToken listener)
      (assoc "state" (plain_query forged_callback)).
Proof.
  intros [H|(s & members & Hs & Hparse & _)]; [discriminate|].
  injection Hs as <-. discriminate.
Defined.


Lemma write_not_granted :
  "write" ∉ savedScopes_of
              (credential "AT0" (Some "OLD") (Some (Num (now + hour)))).
Proof.
  unfold savedScopes_of. cbn. intros H.
  apply elem_of_union in H as [H|H].
  - apply elem_of_singleton in H. discriminate.
  - now apply not_elem_of_empty in H.
Defined.

Lemma underscoped_record_cleared_then_interactive_witness :
  this_client underscoped = None
  /\ "write" ∈ this_scopes underscoped
  /\ getAuthenticatedClient quiet_env 2 underscoped
     = interactive_flow quiet_env 0%nat
         (log EvStoreClear
            (set_store None
               (log EvStoreLoad
                  (set_heap (heap underscoped ++ [no_credentials])
                            underscoped)))).
Proof.
  assert (Hin : "write" ∈ this_scopes underscoped)
    by (apply list_elem_of_further, list_elem_of_here).
  split; [reflexivity|]. split; [exact Hin|].
  exact (proj1 (underscoped_record_cleared_then_interactive quiet_env 1
                  underscoped _ "write" eq_refl eq_refl Hin write_not_granted)).
Defined.

Lemma timeout_when_signal_pending_witness :
  cached_or_stored quiet_env (refreshToken quiet_env 1) fresh_install
  = (Ok (inr 0%nat), flow_entry)
  /\ start_login quiet_env 0%nat flow_entry = (Ok login, waiting)
  /\ signal_at_timeout quiet_env login waiting = Pending
  /\ getAuthenticatedClient quiet_env 2 fresh_install
     = (Throw (timeout_error login), log EvAwaitLogin waiting).
Proof.
  assert (H1 : cached_or_stored quiet_env (refreshToken quiet_env 1)
                 fresh_install = (Ok (inr 0%nat), flow_entry))
    by (vm_compute; reflexivity).
  assert (H2 : start_login quiet_env 0%nat flow_entry = (Ok login, waiting))
    by (vm_compute; reflexivity).
  assert (H3 : signal_at_timeout quiet_env login waiting = Pending)
    by (vm_compute; reflexivity).
  split; [exact H1|]. split; [exact H2|]. split; [exact H3|].
  exact (proj1 (timeout_when_signal_pending quiet_env 1 fresh_install
                  flow_entry waiting 0%nat login H1 H2 H3)).
Defined.

Lemma refresh_failure_leaves_credentials_witness :
  this_client without_refresh_token = Some 0%nat
  /\ truthy_string
       (refresh_token (credentials_of without_refresh_token 0%nat)) = false
  /\ refreshToken quiet_env 3 without_refresh_token
     = (Throw (JsError "No refresh token available"), without_refresh_token).
Proof.
  split; [reflexivity|]. split; [reflexivity|].
  exact (proj1 (refresh_failure_leaves_credentials quiet_env 2
                  without_refresh_token 0%nat eq_refl) eq_refl).
Defined.


(** Without a client, [refreshToken] waits for the interactive flow and
    fails with its timeout; the refresh endpoint is not contacted. *)
Example refresh_on_fresh_install_times_out :
  refreshToken quiet_env 3 fresh_install
  = (Throw (timeout_error login), log EvAwaitLogin waiting)
  /\ existsb (fun e => match e with EvFetch _ _ => true | _ => false end)
             (trace (log EvAwaitLogin waiting)) = false.
Proof. split; vm_compute; reflexivity. Qed.

(** A failed request to the endpoint leaves the cached credential and the
    store as they were; the proactive refresh of [getAuthenticatedClient]
    then drops both and goes to the interactive flow. *)
Example refresh_offline :
  let w := signed_in (Some (Num (now - 1000))) in
  fst (refreshToken quiet_env 3 w) = Throw (JsError "fetch failed")
  /\ heap (snd (refreshToken quiet_env 3 w)) = heap w
  /\ store (snd (refreshToken quiet_env 3 w)) = store w
  /\ this_client (snd (refreshToken quiet_env 3 w)) = this_client w
  /\ fst (getAuthenticatedClient quiet_env 2 w)
     = Throw (timeout_error login).
Proof. vm_compute. repeat split. Qed.

End Run.

(** * The further properties on concrete runs *)

Module RunFurther.
Import Scenario.


Lemma resolved_only_by_valid_callback_witness :
  completion listener = Pending
  /\ (completion (fst (requestListener quiet_env listener
                         (Some forged_callback) waiting)) <> Resolved ->
      snd (requestListener quiet_env listener (Some forged_callback) waiting)
      = waiting).
Proof.
  split; [reflexivity|].
  exact (proj2 (resolved_only_by_valid_callback quiet_env listener
                  (Some forged_callback) waiting eq_refl)).
Defined.

Lemma server_closed_iff_request_witness :
  closed listener = false
  /\ closed (fst (deliver_all quiet_env
                    [InServerError "EMFILE"; InRequest (Some forged_callback)]
                    (listener, waiting)))
     = existsb is_request
         [InServerError "EMFILE"; InRequest (Some forged_callback)].
Proof.
  split; [reflexivity|].
  exact (proj1 (server_closed_iff_request quiet_env
                  [InServerError "EMFILE"; InRequest (Some forged_callback)]
                  listener waiting eq_refl)).
Defined.

Lemma cached_credential_at_boundary_returned_witness :
  this_client at_boundary = Some 0%nat
  /\ expiry_date (credentials_of at_boundary 0%nat)
     = Some (Num (now + 5 * 60 * 1000))
  /\ getAuthenticatedClient quiet_env 2 at_boundary = (Ok 0%nat, at_boundary).
Proof.
  split; [reflexivity|]. split; [reflexivity|].
  apply (cached_credential_at_boundary_returned quiet_env 1 at_boundary 0%nat
           (Num (now + 5 * 60 * 1000)));
    [reflexivity|reflexivity|reflexivity|].
  right. right. exists (now + 5 * 60 * 1000). split; [reflexivity|].
  cbn [Date_now quiet_env env]. lia.
Defined.

Lemma expired_expires_within_buffer E0 :
  Date_now E0 (trace expired) = now ->
  expires_within_buffer (Date_now E0 (trace expired))
                        (credentials_of expired 0%nat).
Proof.
  intros ->. exists (now - 1000). split; [reflexivity|].
  unfold now. split; lia.
Defined.

Lemma expiring_cached_credential_refreshed_witness :
  this_client expired = Some 0%nat
  /\ refresh_token (credentials_of expired 0%nat) = Some "OLD"
  /\ exists w',
       getAuthenticatedClient refreshing 2 expired = (Ok 0%nat, w')
       /\ credentials_of w' 0%nat
          = merged_credentials
              (credential "AT2" (Some "NEW") (Some (Num (now + hour))))
              (credentials_of expired 0%nat)
       /\ store w'
          = Some (merged_credentials
                    (credential "AT2" (Some "NEW") (Some (Num (now + hour))))
                    (credentials_of expired 0%nat))
       /\ this_client w' = Some 0%nat
       /\ trace w'
          = (trace expired
             ++ [EvFetch (refresh_url refreshing) "OLD";
                 EvStoreSave
                   (merged_credentials
                      (credential "AT2" (Some "NEW") (Some (Num (now + hour))))
                      (credentials_of expired 0%nat))])%list.
Proof.
  split; [reflexivity|]. split; [reflexivity|].
  apply (expiring_cached_credential_refreshed refreshing 0 expired 0%nat "OLD"
           200 "" (credential "AT2" (Some "NEW") (Some (Num (now + hour)))));
    [reflexivity|reflexivity|discriminate
    |apply expired_expires_within_buffer; reflexivity
    |reflexivity|reflexivity|reflexivity].
Defined.

Lemma failed_refresh_clears_and_goes_interactive_witness :
  this_client expired = Some 0%nat
  /\ refreshToken_try quiet_env expired
     = (Throw (JsError "fetch failed"), after_failed_refresh)
  /\ getAuthenticatedClient quiet_env 2 expired
     = interactive_flow quiet_env (length (heap after_failed_refresh))
         (log EvStoreLoad
            (set_heap (heap after_failed_refresh ++ [no_credentials])
               (log EvStoreClear
                  (set_store None
                     (set_this_client None after_failed_refresh))))).
Proof.
  assert (Hfail : refreshToken_try quiet_env expired
                  = (Throw (JsError "fetch failed"), after_failed_refresh))
    by (vm_compute; reflexivity).
  split; [reflexivity|]. split; [exact Hfail|].
  exact (proj1 (failed_refresh_clears_and_goes_interactive
                  quiet_env 0 expired after_failed_refresh 0%nat
                  (JsError "fetch failed") eq_refl eq_refl
                  (expired_expires_within_buffer quiet_env eq_refl) Hfail)).
Defined.

Lemma read_granted token refresh expiry s :
  s ∈ ["read"] -> s ∈ savedScopes_of (credential token refresh expiry).
Proof.
  intros Hs. apply list_elem_of_singleton in Hs as ->.
  unfold savedScopes_of. cbn. apply elem_of_union_l, elem_of_singleton.
  reflexivity.
Defined.

Lemma good_record_not_expiring :
  ~ expires_within_buffer
      (Date_now quiet_env (trace returning ++ [EvStoreLoad])) good_record.
Proof.
  intros (e & [= <-] & _ & Hlt). cbn [Date_now quiet_env env] in Hlt.
  unfold now, hour in Hlt. lia.
Defined.

Lemma sufficient_record_adopted_witness :
  store returning = Some good_record
  /\ exists w',
       getAuthenticatedClient quiet_env 2 returning
       = (Ok (length (heap returning)), w')
       /\ credentials_of w' (length (heap returning)) = good_record
       /\ this_client w' = Some (length (heap returning))
       /\ store w' = Some good_record
       /\ trace w' = (trace returning ++ [EvStoreLoad])%list.
Proof.
  split; [reflexivity|].
  exact (sufficient_record_adopted quiet_env 0 returning good_record I eq_refl
           (read_granted _ _ _) good_record_not_expiring).
Defined.

Lemma success_leaves_record_in_step_witness :
  getAuthenticatedClient answered 2 fresh_install = (Ok 0%nat, signed_up)
  /\ 0%nat = length (heap fresh_install)
  /\ this_client signed_up = Some 0%nat
  /\ store signed_up = Some (credentials_of signed_up 0%nat).
Proof.
  assert (Hrun : getAuthenticatedClient answered 2 fresh_install
                 = (Ok 0%nat, signed_up)) by (vm_compute; reflexivity).
  split; [exact Hrun|].
  exact (success_leaves_record_in_step answered 0 fresh_install signed_up
           0%nat I Hrun).
Defined.

Lemma refresh_failure_keeps_record_witness :
  this_client expired = Some 0%nat
  /\ refreshToken quiet_env 3 expired
     = (Throw (JsError "fetch failed"), after_failed_refresh)
  /\ store after_failed_refresh = store expired
  /\ this_client after_failed_refresh = Some 0%nat.
Proof.
  assert (Hrun : refreshToken quiet_env 3 expired
                 = (Throw (JsError "fetch failed"), after_failed_refresh))
    by (vm_compute; reflexivity).
  split; [reflexivity|]. split; [exact Hrun|].
  destruct (refresh_failure_keeps_record quiet_env 2 expired
              after_failed_refresh 0%nat (JsError "fetch failed")
              eq_refl Hrun) as (Hs & Hc & _).
  split; [exact Hs|exact Hc].
Defined.



Lemma at_most_one_refresh_request_witness :
  getAuthenticatedClient refreshing 2 expired
  = (Ok 0%nat, snd (getAuthenticatedClient refreshing 2 expired))
  /\ exists t,
       trace (snd (getAuthenticatedClient refreshing 2 expired))
       = (trace expired ++ t)%list
       /\ (count_events is_fetch t <= 1)%nat.
Proof.
  assert (Hrun : getAuthenticatedClient refreshing 2 expired
                 = (Ok 0%nat, snd (getAuthenticatedClient refreshing 2 expired)))
    by (vm_compute; reflexivity).
  split; [exact Hrun|].
  exact (at_most_one_refresh_request refreshing 0 expired _ _ Hrun).
Defined.

Lemma refresh_save_failure_updates_client_witness :
  this_client expired = Some 0%nat
  /\ save_error (with_failing_store refreshing)
       (trace expired
        ++ [EvFetch (refresh_url (with_failing_store refreshing)) "OLD"])
     = Some (JsError "EACCES: permission denied")
  /\ exists w',
       refreshToken (with_failing_store refreshing) 3 expired
       = (Throw (JsError "EACCES: permission denied"), w')
       /\ credentials_of w' 0%nat
          = merged_credentials
              (credential "AT2" (Some "NEW") (Some (Num (now + hour))))
              (credentials_of expired 0%nat)
       /\ store w' = store expired.
Proof.
  split; [reflexivity|]. split; [reflexivity|].
  apply (refresh_save_failure_updates_client (with_failing_store refreshing) 2
           expired 0%nat "OLD" 200 ""
           (credential "AT2" (Some "NEW") (Some (Num (now + hour))))
           (JsError "EACCES: permission denied"));
    [reflexivity|reflexivity|discriminate|reflexivity|reflexivity|reflexivity].
Defined.

Lemma lapsed_record_expiring :
  expires_within_buffer
    (Date_now refreshing (trace lapsed ++ [EvStoreLoad])) lapsed_record.
Proof.
  exists (now - 1000). split; [reflexivity|].
  cbn [Date_now refreshing env]. unfold now. split; lia.
Defined.

Lemma refresh_without_client_refreshes_twice_witness :
  this_client lapsed = None
  /\ store lapsed = Some lapsed_record
  /\ exists w',
       refreshToken refreshing 3 lapsed = (Ok tt, w')
       /\ count_events is_fetch (trace w') = 2%nat
       /\ store w'
          = Some (merged_credentials
                    (credential "AT2" (Some "NEW") (Some (Num (now + hour))))
                    (merged_credentials
                       (credential "AT2" (Some "NEW") (Some (Num (now + hour))))
                       lapsed_record)).
Proof.
  split; [reflexivity|]. split; [reflexivity|].
  destruct (refresh_without_client_refreshes_twice refreshing 0 lapsed
              lapsed_record "OLD" 200 200 "" ""
              (credential "AT2" (Some "NEW") (Some (Num (now + hour))))
              (credential "AT2" (Some "NEW") (Some (Num (now + hour))))
              eq_refl eq_refl (read_granted _ _ _) eq_refl
              ltac:(discriminate) lapsed_record_expiring
              eq_refl eq_refl eq_refl eq_refl eq_refl eq_refl)
    as (w' & Hrun & Htrace & Hstore & _).
  exists w'. split; [exact Hrun|]. split; [|exact Hstore].
  rewrite Htrace. reflexivity.
Defined.

End RunFurther.
